(** * Named/positional dimension handlers of pyro.contrib.funsor

    A shallow embedding of [pyro/contrib/funsor/handlers/named_messenger.py]:
    the cleanup, local, global and dim-window scope handlers and the two
    conversion hooks [_pyro_to_data] and [_pyro_to_funsor], over an explicit
    model of the process-wide dimension stack [_DIM_STACK].

    Python objects are records; the module-level singleton [_DIM_STACK] is
    threaded as explicit state; exceptions are the [Raise] outcome of a small
    state-and-error monad.  [OrderedDict]s are association lists kept in
    insertion order, because the cleanup handler walks the global frame in
    reversed insertion order. *)

From Stdlib Require Import ZArith List String Bool Lia Relations.
From Stdlib Require Import DecimalString Sorted.
Import ListNotations.
Local Open Scope Z_scope.

(* ================================================================== *)
(** * Python containers *)
(* ================================================================== *)

Module OrderedDict.

Section Dict.
Variables (K V : Type) (eqb : K -> K -> bool).

(** [d.get(k, None)] *)
Fixpoint get (d : list (K * V)) (k : K) : option V :=
  match d with
  | [] => None
  | (k', v) :: r => if eqb k k' then Some v else get r k
  end.

(** [d[k] = v]: an existing key keeps its place, a new one goes last. *)
Fixpoint set (d : list (K * V)) (k : K) (v : V) : list (K * V) :=
  match d with
  | [] => [(k, v)]
  | (k', v') :: r => if eqb k k' then (k, v) :: r else (k', v') :: set r k v
  end.

(** [d.pop(k, None)] without the returned value: no entry for [k] is left
    (a dictionary holds at most one). *)
Fixpoint pop (d : list (K * V)) (k : K) : list (K * V) :=
  match d with
  | [] => []
  | (k', v') :: r => if eqb k k' then pop r k else (k', v') :: pop r k
  end.

Definition keys (d : list (K * V)) : list K := map fst d.

(** [k in d] *)
Definition contains (d : list (K * V)) (k : K) : bool :=
  match get d k with Some _ => true | None => false end.

End Dict.

Arguments get {K V} eqb d k.
Arguments set {K V} eqb d k v.
Arguments pop {K V} eqb d k.
Arguments keys {K V} d.
Arguments contains {K V} eqb d k.

End OrderedDict.

Module FrozenSet.

Section Set_.
Variables (K : Type) (eqb : K -> K -> bool).

Definition mem (x : K) (l : list K) : bool := existsb (eqb x) l.

Definition subset (l1 l2 : list K) : bool := forallb (fun x => mem x l2) l1.

(** [frozenset(l1) == frozenset(l2)] *)
Definition equal (l1 l2 : list K) : bool := subset l1 l2 && subset l2 l1.

End Set_.

Arguments mem {K} eqb x l.
Arguments subset {K} eqb l1 l2.
Arguments equal {K} eqb l1 l2.

End FrozenSet.

(** [len(l)] as a Python integer. *)
Definition len {A : Type} (l : list A) : Z := Z.of_nat (List.length l).

(** [range(lo, hi)] *)
Definition range (lo hi : Z) : list Z :=
  map (fun i => lo + Z.of_nat i) (seq 0 (Z.to_nat (hi - lo))).

(** [l[i]] for an index that may be negative; the callers below only index
    inside the bounds, the default stands for the [IndexError] elsewhere. *)
Definition py_index (l : list Z) (i : Z) : Z :=
  nth (Z.to_nat (if i <? 0 then len l + i else i)) l 0.

(** [l[:stop]]: a negative [stop] counts from the end, and the bound is
    clamped to [0 .. len(l)]. *)
Definition py_slice_to {A : Type} (l : list A) (stop : Z) : list A :=
  let stop' := if stop <? 0 then Z.max (len l + stop) 0 else Z.min stop (len l) in
  firstn (Z.to_nat stop') l.

(* ================================================================== *)
(** * Exceptions and the state monad of the handlers *)
(* ================================================================== *)

Inductive exn : Type :=
| NotImplementedError (message : string)
| AssertionError
| KeyError
| AttributeError.

Inductive outcome (S A : Type) : Type :=
| Ok (a : A) (s : S)
| Raise (e : exn) (s : S).

Arguments Ok {S A} a s.
Arguments Raise {S A} e s.

Definition ret {S A : Type} (a : A) : S -> outcome S A :=
  fun s => Ok a s.

Definition bind {S A B : Type} (m : S -> outcome S A) (f : A -> S -> outcome S B)
  : S -> outcome S B :=
  fun s => match m s with
           | Ok a s' => f a s'
           | Raise e s' => Raise e s'
           end.

Definition raise {S A : Type} (e : exn) : S -> outcome S A :=
  fun s => Raise e s.

Notation "x <- m ;; f" := (bind m (fun x => f))
  (at level 61, m at next level, right associativity).
Notation "m ;;; f" := (bind m (fun _ => f))
  (at level 61, right associativity).

(* ================================================================== *)
(** * runtime: request types, stack frames, the dimension stack *)
(* ================================================================== *)

(** The visibility classes named by the source ([DimType.LOCAL],
    [DimType.GLOBAL], [DimType.VISIBLE]). *)
Inductive DimType : Type := LOCAL | GLOBAL | VISIBLE.

Definition DimType_eqb (a b : DimType) : bool :=
  match a, b with
  | LOCAL, LOCAL | GLOBAL, GLOBAL | VISIBLE, VISIBLE => true
  | _, _ => false
  end.

(** [DimRequest(dim, dim_type)] as the source builds it. *)
Module DimRequest.
Record t : Type := mk { dim : option Z; dim_type : DimType }.
End DimRequest.

(** [NameRequest(name, dim_type)] as the source builds it. *)
Module NameRequest.
Record t : Type := mk { name : option string; dim_type : DimType }.
End NameRequest.

Module StackFrame.

(** The four fields are those of the constructor call in
    [LocalNamedMessenger.__enter__]. *)
Record t : Type := mk {
  name_to_dim : list (string * Z);
  dim_to_name : list (Z * string);
  history : nat;
  keep : bool
}.

(** The frame [LocalNamedMessenger.__enter__] builds when it does not
    replay an archived one. *)
Definition fresh (history : nat) (keep : bool) : t := mk [] [] history keep.

(** Modelled from the spec: [StackFrame.read] of runtime.py, absent from the
    sources; "read(name) / read(dim) look up the counterpart without
    mutation". *)
Definition read_name (f : t) (name : string) : option Z :=
  OrderedDict.get String.eqb (name_to_dim f) name.

(** Modelled from the spec: the inverse lookup of [StackFrame.read]. *)
Definition read_dim (f : t) (dim : Z) : option string :=
  OrderedDict.get Z.eqb (dim_to_name f) dim.

(** Modelled from the spec: the precondition of [write], "no other name may
    already map to dim in this frame, no other dim may already map to
    name". *)
Definition writable (f : t) (name : string) (dim : Z) : bool :=
  match read_name f name with Some d => d =? dim | None => true end
  && match read_dim f dim with Some n => String.eqb n name | None => true end.

(** Modelled from the spec: [StackFrame.write] of runtime.py, absent from the
    sources; "inserts or overwrites the name<->dim mapping, enforcing the
    bijective invariant (no other name may already map to dim in this frame,
    no other dim may already map to name)".  The invariant is enforced as a
    precondition: a write that breaks it yields [None], which the dimension
    stack surfaces as a failed assertion. *)
Definition write (f : t) (name : string) (dim : Z) : option t :=
  if writable f name dim
  then Some (mk (OrderedDict.set String.eqb (name_to_dim f) name dim)
                (OrderedDict.set Z.eqb (dim_to_name f) dim name)
                (history f) (keep f))
  else None.

(** Modelled from the spec: [StackFrame.free] of runtime.py, absent from the
    sources; "removes the mapping if present and returns the removed
    (name, dim) pair for later restoration; is a no-op if the mapping is
    already absent". *)
Definition free (f : t) (name : string) (dim : Z) : t * (string * Z) :=
  let n2d := match read_name f name with
             | Some d => if d =? dim
                         then OrderedDict.pop String.eqb (name_to_dim f) name
                         else name_to_dim f
             | None => name_to_dim f
             end in
  let d2n := match read_dim f dim with
             | Some n => if String.eqb n name
                         then OrderedDict.pop Z.eqb (dim_to_name f) dim
                         else dim_to_name f
             | None => dim_to_name f
             end in
  (mk n2d d2n (history f) (keep f), (name, dim)).

End StackFrame.

(** A reference to a frame object of the stack, for [iter_frame]. *)
Inductive frame_ref : Type :=
| GlobalFrameRef
| LocalFrameRef (depth : nat).

(** The two call shapes of [_DIM_STACK.request] in the source:
    [request(name, DimRequest(..))] from [_pyro_to_data] and
    [request(NameRequest(..), dim)] from [_pyro_to_funsor]. *)
Inductive request_args : Type :=
| ByName (name : string) (dim : DimRequest.t)
| ByDim (name : NameRequest.t) (dim : Z).

Module DimStack.

(** Modelled from the spec: the [DimStack] singleton of runtime.py, absent
    from the sources.  [frames] is the stack of active local frames,
    innermost last; [outermost] holds the identity of the handler that owns
    the global-frame cleanup.  The spec's [used_dims] is the derived
    function below. *)
Record t : Type := mk {
  frames : list StackFrame.t;
  global_frame : StackFrame.t;
  outermost : option nat;
  iter_frame : option frame_ref;
  first_available_dim : Z
}.

(** Modelled from the spec: the stack "reset at program start"; the cursor
    starts at the value the cleanup handler resets it to. *)
Definition initial : t :=
  mk [] (StackFrame.fresh 0 false) None None (-1).

Definition M (A : Type) : Type := t -> outcome t A.

Definition with_frames (s : t) (fs : list StackFrame.t) : t :=
  mk fs (global_frame s) (outermost s) (iter_frame s) (first_available_dim s).

Definition with_global_frame (s : t) (g : StackFrame.t) : t :=
  mk (frames s) g (outermost s) (iter_frame s) (first_available_dim s).

Definition with_outermost (s : t) (o : option nat) : t :=
  mk (frames s) (global_frame s) o (iter_frame s) (first_available_dim s).


Definition with_first_available_dim (s : t) (d : Z) : t :=
  mk (frames s) (global_frame s) (outermost s) (iter_frame s) d.

(** Modelled from the spec: [push] "appends frame to the active stack". *)
Definition push (frame : StackFrame.t) : M unit :=
  fun s => Ok tt (with_frames s (frames s ++ [frame])).

(** Modelled from the spec: [pop] "removes and returns the innermost frame;
    fails (fatal, programmer error) if the stack is empty". *)
Definition pop : M StackFrame.t :=
  fun s => match rev (frames s) with
           | [] => Raise AssertionError s
           | f :: below => Ok f (with_frames s (rev below))
           end.

(** Modelled from the spec: [set_first_available_dim] "sets the cursor,
    returns the previous value". *)
Definition set_first_available_dim (dim : Z) : M Z :=
  fun s => Ok (first_available_dim s) (with_first_available_dim s dim).

(** Modelled from the spec: the innermost frame.  The spec does not say what
    it is while no local scope is active; the source reads [current_frame]
    before any push ([LocalNamedMessenger.__iter__]), so it is the global
    frame then. *)
Definition current_frame (s : t) : StackFrame.t :=
  match rev (frames s) with
  | [] => global_frame s
  | f :: _ => f
  end.


(** Modelled from the spec: the frames a LOCAL request sees, "the current
    frame, then up to [history] enclosing frames", [history] being that of
    the requesting (innermost) frame. *)
Definition local_window (s : t) : list StackFrame.t :=
  match rev (frames s) with
  | [] => [global_frame s]
  | f :: below => f :: firstn (StackFrame.history f) below
  end.

(** Modelled from the spec: step 2 of [request], the frames searched for an
    existing binding: the local window for LOCAL, the global frame for
    GLOBAL and VISIBLE. *)
Definition read_frames (ty : DimType) (s : t) : list StackFrame.t :=
  match ty with
  | LOCAL => local_window s
  | GLOBAL | VISIBLE => [global_frame s]
  end.

(** Modelled from the spec: [used_dims], the "dims currently allocated
    somewhere in the visible frame chain"; the global frame is "always
    visible". *)
Definition used_dims (s : t) : list Z :=
  flat_map (fun f => OrderedDict.keys (StackFrame.dim_to_name f))
           (local_window s ++ [global_frame s]).

(** Modelled from the spec: the search of step 3 of [request], counting
    down from [d] and skipping the dims in [used]; [fuel] bounds the skips,
    and there are never more of them than dims in [used]. *)
Fixpoint next_free (fuel : nat) (used : list Z) (d : Z) : Z :=
  if FrozenSet.mem Z.eqb d used
  then match fuel with
       | O => d
       | S k => next_free k used (d - 1)
       end
  else d.

(** Modelled from the spec: step 3 of [request], "allocate the next dim
    counting down from first_available_dim, skipping any dim in used_dims
    within the visible window".  The spec gives no bound on the dims, so the
    allocator has none. *)
Definition fresh_dim (s : t) : Z :=
  next_free (List.length (used_dims s)) (used_dims s) (first_available_dim s).

(** Modelled from the spec: the "synthetic ordinal name" of a dim that was
    requested without a name; the spec fixes no format, the ordinal is the
    distance of the dim from the end of the shape. *)
Definition ordinal_name (dim : Z) : string :=
  String.append "_pyro_dim_" (NilEmpty.string_of_uint (N.to_uint (Z.to_N (- dim)))).

(** Modelled from the spec: step 2 of [request], the first binding of a
    name along the frames searched. *)
Fixpoint find_name (fs : list StackFrame.t) (name : string) : option Z :=
  match fs with
  | [] => None
  | f :: r => match StackFrame.read_name f name with
              | Some d => Some d
              | None => find_name r name
              end
  end.

(** Modelled from the spec: the same search for a dim. *)
Fixpoint find_dim (fs : list StackFrame.t) (dim : Z) : option string :=
  match fs with
  | [] => None
  | f :: r => match StackFrame.read_dim f dim with
              | Some n => Some n
              | None => find_dim r dim
              end
  end.

(** [_DIM_STACK.global_frame.write(name, dim)] *)
Definition write_global (name : string) (dim : Z) : M unit :=
  fun s => match StackFrame.write (global_frame s) name dim with
           | Some g => Ok tt (with_global_frame s g)
           | None => Raise AssertionError s
           end.

(** [_DIM_STACK.global_frame.free(name, dim)] *)
Definition free_global (name : string) (dim : Z) : M (string * Z) :=
  fun s => let '(g, p) := StackFrame.free (global_frame s) name dim in
           Ok p (with_global_frame s g).

(** Modelled from the spec: a write into the innermost frame, the global
    frame while no local scope is active. *)
Definition write_current (name : string) (dim : Z) : M unit :=
  fun s => match rev (frames s) with
           | [] => write_global name dim s
           | f :: below =>
               match StackFrame.write f name dim with
               | Some f' => Ok tt (with_frames s (rev below ++ [f']))
               | None => Raise AssertionError s
               end
           end.

(** Modelled from the spec: step 5 of [request], the frame the resolved
    pair is written into: "current innermost for LOCAL, global frame for
    GLOBAL/VISIBLE". *)
Definition write_target (ty : DimType) (name : string) (dim : Z) : M unit :=
  match ty with
  | LOCAL => write_current name dim
  | GLOBAL | VISIBLE => write_global name dim
  end.

(** Modelled from the spec: steps 2 to 5 of [request] on the unwrapped
    request.  A given name is searched first and its binding reused; a dim
    given without a name is looked up the same way in the inverse direction
    (the "inverse order" of the to-named conversion); otherwise the given
    dim is taken as it is, or a fresh one is allocated, and a missing name
    is synthesised.  The resolved pair is written and returned. *)
Definition resolve (name : option string) (dim : option Z) (ty : DimType)
  : M (string * Z) :=
  fun s =>
    let found :=
      match name, dim with
      | Some n, _ => option_map (fun d => (n, d)) (find_name (read_frames ty s) n)
      | None, Some d => option_map (fun n => (n, d)) (find_dim (read_frames ty s) d)
      | None, None => None
      end in
    let p :=
      match found with
      | Some p => p
      | None =>
          let d := match dim with Some d => d | None => fresh_dim s end in
          let n := match name with Some n => n | None => ordinal_name d end in
          (n, d)
      end in
    (write_target ty (fst p) (snd p) ;;; ret p) s.

(** Modelled from the spec: [request(name_or_request, dim_or_request) ->
    (name, dim)] of runtime.py, absent from the sources; step 1 takes the
    visibility class from the request wrapper. *)
Definition request (a : request_args) : M (string * Z) :=
  match a with
  | ByName n r => resolve (Some n) (DimRequest.dim r) (DimRequest.dim_type r)
  | ByDim r d => resolve (NameRequest.name r) (Some d) (NameRequest.dim_type r)
  end.

End DimStack.

(* ================================================================== *)
(** * Values and messages of the two conversions *)
(* ================================================================== *)

(** A funsor as the handlers see it: [inputs], an ordered name -> size map. *)
Module Funsor.
Record t : Type := mk { inputs : list (string * Z) }.
End Funsor.

(** The [output] domain of [to_funsor]; only its [shape] is read. *)
Module Domain.
Record t : Type := mk { shape : list Z }.
End Domain.

(** The raw value of [to_funsor]: an object with a [batch_shape] attribute,
    one with only a [shape], or one with neither. *)
Inductive RawValue : Type :=
| WithBatchShape (batch_shape : list Z)
| WithShape (shape : list Z)
| Shapeless.

(** A value of the caller's [name_to_dim]: a plain dim (or [None]) or a
    [DimRequest]. *)
Inductive dim_entry : Type :=
| PlainDim (dim : option Z)
| WrappedDim (r : DimRequest.t).

(** A value of the caller's [dim_to_name]: a plain name (or [None]) or a
    [NameRequest]. *)
Inductive name_entry : Type :=
| PlainName (name : option string)
| WrappedName (r : NameRequest.t).

(** [msg] of a [to_data] call: [msg["args"]], the two keyword arguments
    (absent keys are [None]) and [msg["stop"]]. *)
Module ToDataMsg.
Record t : Type := mk {
  args : Funsor.t;
  name_to_dim : option (list (string * dim_entry));
  dim_type : option DimType;
  stop : bool
}.
End ToDataMsg.

(** [msg] of a [to_funsor] call: [msg["args"]] holds the raw value and, when
    it has two elements, the output; the keyword arguments; [msg["value"]]
    and [msg["stop"]]. *)
Module ToFunsorMsg.
Record t : Type := mk {
  raw_value : RawValue;
  output_arg : option (option Domain.t);
  output : option (option Domain.t);
  dim_to_name : option (list (Z * name_entry));
  dim_type : option DimType;
  value : option Funsor.t;
  stop : bool
}.
End ToFunsorMsg.

Definition setdefault {A : Type} (o : option A) (d : A) : A :=
  match o with Some a => a | None => d end.

(* ================================================================== *)
(** * named_messenger: the handlers *)
(* ================================================================== *)

(** Modelled from the spec: [ReentrantMessenger] of pyro.poutine, absent from
    the sources; "a re-entrant dynamic-scope object with a reference count
    tracking nested re-entry of the same handler instance".  Entering counts
    up, exiting counts down. *)
Module ReentrantMessenger.

Definition __enter__ (ref_count : Z) : Z := ref_count + 1.

Definition __exit__ (ref_count : Z) : Z := ref_count - 1.

End ReentrantMessenger.

Module DimStackCleanupMessenger.

(** [self] is the identity of the handler object, compared by
    [_DIM_STACK.outermost is self]. *)
Record t : Type := mk {
  self : nat;
  _ref_count : Z;
  _saved_dims : list (string * Z)
}.

Definition __init__ (self : nat) : t := mk self 0 [].

Definition is_outermost (h : t) (s : DimStack.t) : bool :=
  match DimStack.outermost s with
  | Some o => Nat.eqb o (self h)
  | None => false
  end.

Definition outermost_is_None (s : DimStack.t) : bool :=
  match DimStack.outermost s with
  | Some _ => false
  | None => true
  end.

Definition set_outermost (o : option nat) : DimStack.M unit :=
  fun s => Ok tt (DimStack.with_outermost s o).

(** [for name, dim in pairs: _DIM_STACK.global_frame.write(name, dim)] *)
Fixpoint write_all (pairs : list (string * Z)) : DimStack.M unit :=
  match pairs with
  | [] => ret tt
  | (name, dim) :: rest => DimStack.write_global name dim ;;; write_all rest
  end.

(** [for name, dim in pairs: saved += (global_frame.free(name, dim),)] *)
Fixpoint free_all (pairs : list (string * Z)) (saved : list (string * Z))
  : DimStack.M (list (string * Z)) :=
  match pairs with
  | [] => ret saved
  | (name, dim) :: rest =>
      p <- DimStack.free_global name dim ;;
      free_all rest (saved ++ [p])
  end.

Definition __enter__ (h : t) : DimStack.M t :=
  fun s =>
    (h1 <- (if (_ref_count h =? 0) && outermost_is_None s
            then set_outermost (Some (self h)) ;;;
                 write_all (_saved_dims h) ;;;
                 ret (mk (self h) (_ref_count h) [])
            else ret h) ;;
     ret (mk (self h1) (ReentrantMessenger.__enter__ (_ref_count h1)) (_saved_dims h1))) s.

Definition __exit__ (h : t) : DimStack.M t :=
  fun s =>
    (h1 <- (if (_ref_count h =? 1) && is_outermost h s
            then set_outermost None ;;;
                 DimStack.set_first_available_dim (-1) ;;;
                 (fun s' =>
                    (saved <- free_all
                                (rev (StackFrame.name_to_dim (DimStack.global_frame s')))
                                (_saved_dims h) ;;
                     ret (mk (self h) (_ref_count h) saved)) s')
            else ret h) ;;
     ret (mk (self h1) (ReentrantMessenger.__exit__ (_ref_count h1)) (_saved_dims h1))) s.

End DimStackCleanupMessenger.

Module NamedMessenger.

Definition partial_name_to_dim : exn :=
  NotImplementedError "partially specified name_to_dim not supported".

Definition partial_dim_to_name : exn :=
  NotImplementedError "partially specified dim_to_name not supported".

(** [event_dim = len(output.shape) if output else 0]; a domain object is
    never falsy, so only [None] takes the second branch. *)
Definition event_dim_of (output : option Domain.t) : Z :=
  match output with
  | Some o => len (Domain.shape o)
  | None => 0
  end.

(** The [try]/[except AttributeError] block of [_pyro_to_funsor]. *)
Definition batch_shape_of (raw_value : RawValue) (event_dim : Z) : list Z :=
  match raw_value with
  | WithBatchShape bs => bs
  | WithShape full_shape => py_slice_to full_shape (len full_shape - event_dim)
  | Shapeless => py_slice_to [] (len (@nil Z) - event_dim)
  end.

(** [tuple(dim for dim in range(-len(batch_shape), 0) if batch_shape[dim] > 1)] *)
Definition batch_dims_of (batch_shape : list Z) : list Z :=
  filter (fun dim => py_index batch_shape dim >? 1) (range (- len batch_shape) 0).

(** The [output] that [_pyro_to_funsor] unpacks from [msg["args"]] or, when
    there is a single argument, from [msg["kwargs"]]. *)
Definition msg_output (msg : ToFunsorMsg.t) : option Domain.t :=
  match ToFunsorMsg.output_arg msg with
  | Some o => o
  | None => setdefault (ToFunsorMsg.output msg) None
  end.

(** [batch_dims] as [_pyro_to_funsor] computes it from the message. *)
Definition msg_batch_dims (msg : ToFunsorMsg.t) : list Z :=
  batch_dims_of (batch_shape_of (ToFunsorMsg.raw_value msg)
                                (event_dim_of (msg_output msg))).

Section Conversions.

(** [_DIM_STACK.request]: the conversions are given over any resolver, and
    run on [DimStack.request]. *)
Variable request : request_args -> DimStack.M (string * Z).

(** The loop of [_pyro_to_data] over [batch_names]. *)
Fixpoint to_data_loop (dim_type : DimType) (batch_names : list string)
  (name_to_dim : list (string * dim_entry))
  : DimStack.M (list (string * dim_entry)) :=
  match batch_names with
  | [] => ret name_to_dim
  | name :: rest =>
      let dim := OrderedDict.get String.eqb name_to_dim name in
      let r := match dim with
               | Some (WrappedDim r) => r
               | Some (PlainDim d) => DimRequest.mk d dim_type
               | None => DimRequest.mk None dim_type
               end in
      p <- request (ByName name r) ;;
      to_data_loop dim_type rest
        (OrderedDict.set String.eqb name_to_dim name (PlainDim (Some (snd p))))
  end.

Definition _pyro_to_data (msg : ToDataMsg.t) : DimStack.M ToDataMsg.t :=
  let funsor_value := ToDataMsg.args msg in
  let name_to_dim := setdefault (ToDataMsg.name_to_dim msg) [] in
  let dim_type := setdefault (ToDataMsg.dim_type msg) LOCAL in
  let batch_names := OrderedDict.keys (Funsor.inputs funsor_value) in
  if (len name_to_dim >? 0)
     && negb (FrozenSet.equal String.eqb batch_names (OrderedDict.keys name_to_dim))
  then raise partial_name_to_dim
  else
    name_to_dim' <- to_data_loop dim_type batch_names name_to_dim ;;
    ret (ToDataMsg.mk funsor_value (Some name_to_dim') (Some dim_type) true).

(** The loop of [_pyro_to_funsor] over [batch_dims]. *)
Fixpoint to_funsor_loop (dim_type : DimType) (batch_dims : list Z)
  (dim_to_name : list (Z * name_entry))
  : DimStack.M (list (Z * name_entry)) :=
  match batch_dims with
  | [] => ret dim_to_name
  | dim :: rest =>
      let name := OrderedDict.get Z.eqb dim_to_name dim in
      let r := match name with
               | Some (WrappedName r) => r
               | Some (PlainName n) => NameRequest.mk n dim_type
               | None => NameRequest.mk None dim_type
               end in
      p <- request (ByDim r dim) ;;
      to_funsor_loop dim_type rest
        (OrderedDict.set Z.eqb dim_to_name dim (PlainName (Some (fst p))))
  end.

Definition _pyro_to_funsor (msg : ToFunsorMsg.t) : DimStack.M ToFunsorMsg.t :=
  let raw_value := ToFunsorMsg.raw_value msg in
  let output := msg_output msg in
  let kw_output := match ToFunsorMsg.output_arg msg with
                   | Some _ => ToFunsorMsg.output msg
                   | None => Some output
                   end in
  let dim_to_name := setdefault (ToFunsorMsg.dim_to_name msg) [] in
  let dim_type := setdefault (ToFunsorMsg.dim_type msg) LOCAL in
  let batch_dims := msg_batch_dims msg in
  if (len dim_to_name >? 0)
     && negb (FrozenSet.equal Z.eqb batch_dims (OrderedDict.keys dim_to_name))
  then raise partial_dim_to_name
  else
    dim_to_name' <- to_funsor_loop dim_type batch_dims dim_to_name ;;
    ret (ToFunsorMsg.mk raw_value (ToFunsorMsg.output_arg msg) kw_output
           (Some dim_to_name') (Some dim_type) (ToFunsorMsg.value msg) true).

End Conversions.

End NamedMessenger.

Module LocalNamedMessenger.

(** [_iterable] is the caller's sequence and is left to the caller. *)
Record t : Type := mk {
  base : DimStackCleanupMessenger.t;
  history : nat;
  keep : bool;
  _saved_frames : list StackFrame.t
}.

Definition __init__ (self : nat) (history : nat) (keep : bool) : t :=
  mk (DimStackCleanupMessenger.__init__ self) history keep [].


Definition __enter__ (h : t) : DimStack.M t :=
  let '(frame, saved) :=
    match keep h, rev (_saved_frames h) with
    | true, f :: r => (f, rev r)
    | _, _ => (StackFrame.mk [] [] (history h) (keep h), _saved_frames h)
    end in
  DimStack.push frame ;;;
  b <- DimStackCleanupMessenger.__enter__ (base h) ;;
  ret (mk b (history h) (keep h) saved).

Definition __exit__ (h : t) : DimStack.M t :=
  saved <- (if keep h
            then f <- DimStack.pop ;; ret (_saved_frames h ++ [f])
            else DimStack.pop ;;; ret (_saved_frames h)) ;;
  b <- DimStackCleanupMessenger.__exit__ (base h) ;;
  ret (mk b (history h) (keep h) saved).

End LocalNamedMessenger.

Module GlobalNamedMessenger.

Record t : Type := mk {
  base : DimStackCleanupMessenger.t;
  _saved_globals : list (string * Z)
}.

Definition __init__ (self : nat) : t :=
  mk (DimStackCleanupMessenger.__init__ self) [].

(** [for name, dim in pairs: _DIM_STACK.global_frame.free(name, dim)] *)
Fixpoint free_each (pairs : list (string * Z)) : DimStack.M unit :=
  match pairs with
  | [] => ret tt
  | (name, dim) :: rest => DimStack.free_global name dim ;;; free_each rest
  end.

Definition __enter__ (h : t) : DimStack.M t :=
  saved <- (if DimStackCleanupMessenger._ref_count (base h) =? 0
            then DimStackCleanupMessenger.write_all (_saved_globals h) ;;; ret []
            else ret (_saved_globals h)) ;;
  b <- DimStackCleanupMessenger.__enter__ (base h) ;;
  ret (mk b saved).

Definition __exit__ (h : t) : DimStack.M t :=
  (if DimStackCleanupMessenger._ref_count (base h) =? 1
   then free_each (_saved_globals h)
   else ret tt) ;;;
  b <- DimStackCleanupMessenger.__exit__ (base h) ;;
  ret (mk b (_saved_globals h)).

Definition is_global_or_visible (ty : DimType) : bool :=
  match ty with
  | GLOBAL | VISIBLE => true
  | LOCAL => false
  end.

(** [for name in names:
       saved += ((name, _DIM_STACK.global_frame.name_to_dim[name]),)] *)
Fixpoint record_globals (names : list string) (saved : list (string * Z))
  : DimStack.M (list (string * Z)) :=
  match names with
  | [] => ret saved
  | name :: rest =>
      fun s =>
        match StackFrame.read_name (DimStack.global_frame s) name with
        | Some dim => record_globals rest (saved ++ [(name, dim)]) s
        | None => Raise KeyError s
        end
  end.

Definition post (h : t) (dim_type : option DimType) (names : list string)
  : DimStack.M t :=
  match dim_type with
  | None => raise KeyError
  | Some ty =>
      if is_global_or_visible ty
      then saved <- record_globals names (_saved_globals h) ;;
           ret (mk (base h) saved)
      else ret h
  end.

(** [msg["value"]] is read only once the dim type has passed the test; a
    value that is still [None] has no [inputs]. *)
Definition _pyro_post_to_funsor (h : t) (msg : ToFunsorMsg.t) : DimStack.M t :=
  match ToFunsorMsg.dim_type msg with
  | None => raise KeyError
  | Some ty =>
      if is_global_or_visible ty
      then match ToFunsorMsg.value msg with
           | None => raise AttributeError
           | Some v => post h (Some ty) (OrderedDict.keys (Funsor.inputs v))
           end
      else ret h
  end.

Definition _pyro_post_to_data (h : t) (msg : ToDataMsg.t) : DimStack.M t :=
  post h (ToDataMsg.dim_type msg)
       (OrderedDict.keys (Funsor.inputs (ToDataMsg.args msg))).

End GlobalNamedMessenger.

Module BaseEnumMessenger.

(** [_prev_first_dim] does not exist until the first entry sets it. *)
Record t : Type := mk {
  base : DimStackCleanupMessenger.t;
  first_available_dim : option Z;
  _prev_first_dim : option Z
}.

(** The constructor asserts [first_available_dim is None or
    first_available_dim < 0]. *)
Definition __init__ (self : nat) (first_available_dim : option Z) : option t :=
  match first_available_dim with
  | Some d => if d <? 0
              then Some (mk (DimStackCleanupMessenger.__init__ self) (Some d) None)
              else None
  | None => Some (mk (DimStackCleanupMessenger.__init__ self) None None)
  end.

Definition __enter__ (h : t) : DimStack.M t :=
  prev <- (match first_available_dim h with
           | Some d =>
               if DimStackCleanupMessenger._ref_count (base h) =? 0
               then p <- DimStack.set_first_available_dim d ;; ret (Some p)
               else ret (_prev_first_dim h)
           | None => ret (_prev_first_dim h)
           end) ;;
  b <- DimStackCleanupMessenger.__enter__ (base h) ;;
  ret (mk b (first_available_dim h) prev).

Definition __exit__ (h : t) : DimStack.M t :=
  (match first_available_dim h with
   | Some _ =>
       if DimStackCleanupMessenger._ref_count (base h) =? 1
       then match _prev_first_dim h with
            | Some p => DimStack.set_first_available_dim p ;;; ret tt
            | None => raise AttributeError
            end
       else ret tt
   | None => ret tt
   end) ;;;
  b <- DimStackCleanupMessenger.__exit__ (base h) ;;
  ret (mk b (first_available_dim h) (_prev_first_dim h)).

End BaseEnumMessenger.

(* ================================================================== *)
(** * Vocabulary of the properties *)
(* ================================================================== *)

(** A supplied map is partially specified: it is non-empty and leaves out
    one of the relevant axes. *)
Definition partially_specified {K : Type} (relevant supplied : list K) : Prop :=
  supplied <> [] /\ exists k, In k relevant /\ ~ In k supplied.

(** A supplied map over-specifies: it covers every relevant axis and has an
    entry for something else. *)
Definition strict_superset {K : Type} (relevant supplied : list K) : Prop :=
  (forall k, In k relevant -> In k supplied)
  /\ exists k, In k supplied /\ ~ In k relevant.

(** The batch shape in the words of the specification: "the full shape with
    the last event_dim axes removed". *)
Definition spec_batch_shape (full_shape : list Z) (event_dim : nat) : list Z :=
  firstn (List.length full_shape - event_dim) full_shape.

(** The keys of the [dim_to_name] that a [to_funsor] message carries. *)
Definition named_dims (msg : ToFunsorMsg.t) : list Z :=
  OrderedDict.keys (setdefault (ToFunsorMsg.dim_to_name msg) []).

(** The state a monadic computation leaves behind, whether it returned or
    raised. *)
Definition final_state {S A : Type} (o : outcome S A) : S :=
  match o with
  | Ok _ s => s
  | Raise _ s => s
  end.

(** [name] and [dim] are bound to each other in frame [f]. *)
Definition bound (f : StackFrame.t) (name : string) (dim : Z) : Prop :=
  StackFrame.read_name f name = Some dim /\ StackFrame.read_dim f dim = Some name.

(** The invariant of a frame in the specification: the two dictionaries are
    mutual inverses. *)
Definition bijective (f : StackFrame.t) : Prop :=
  forall name dim,
    StackFrame.read_name f name = Some dim <-> StackFrame.read_dim f dim = Some name.

(** A frame as the dictionaries of the source hold it: each key once, and
    the two dictionaries mutual inverses. *)
Definition well_formed (f : StackFrame.t) : Prop :=
  NoDup (OrderedDict.keys (StackFrame.name_to_dim f))
  /\ NoDup (OrderedDict.keys (StackFrame.dim_to_name f))
  /\ bijective f.



(* ================================================================== *)
(** * Iterating a local scope *)
(* ================================================================== *)










(* ================================================================== *)
(** * Activity inside the scope of a global-binding handler *)
(* ================================================================== *)




(* ================================================================== *)
(** * The two conversions back to back *)
(* ================================================================== *)

(** The frame a request of class [ty] writes into. *)
Definition target (ty : DimType) (s : DimStack.t) : StackFrame.t :=
  match ty with
  | LOCAL => DimStack.current_frame s
  | GLOBAL | VISIBLE => DimStack.global_frame s
  end.

(** [msg] of the call [to_data(v, dim_type=ty)], without a [name_to_dim]. *)
Definition to_data_call (v : Funsor.t) (ty : option DimType) : ToDataMsg.t :=
  ToDataMsg.mk v None ty false.

(** [msg] of the call [to_funsor(x, dim_type=ty)] on a raw value of the
    given shape, without an output and without a [dim_to_name]. *)
Definition to_funsor_call (shape : list Z) (ty : option DimType) : ToFunsorMsg.t :=
  ToFunsorMsg.mk (WithShape shape) None None None ty None false.

(** Boundary with the tensor layer: the dim -> size mapping of the
    positional value that is built from a served [to_data] message, each
    input of the named value at the dim its name was resolved to. *)
Definition positional_sizes (msg : ToDataMsg.t) : list (Z * Z) :=
  flat_map (fun e =>
              match OrderedDict.get String.eqb
                      (setdefault (ToDataMsg.name_to_dim msg) []) (fst e) with
              | Some (PlainDim (Some d)) => [(d, snd e)]
              | _ => []
              end)
           (Funsor.inputs (ToDataMsg.args msg)).

(** Boundary with the tensor layer: the shape of that positional value, one
    axis for every dim down to the lowest one, of size 1 where no input
    sits. *)
Definition data_shape (sizes : list (Z * Z)) : list Z :=
  let rank := fold_right Z.max 0 (map (fun e => - fst e) sizes) in
  map (fun d => match OrderedDict.get Z.eqb sizes d with
                | Some size => size
                | None => 1
                end)
      (range (- rank) 0).

(** The dim -> size mapping of a positional value on its batch dims. *)
Definition batch_sizes (shape : list Z) : list (Z * Z) :=
  map (fun d => (d, py_index shape d)) (NamedMessenger.batch_dims_of shape).

(** Boundary with the tensor layer: the name -> size mapping of the named
    value that is built from a served [to_funsor] message, each batch dim of
    the shape under the name it was resolved to. *)
Definition named_sizes (shape : list Z) (msg : ToFunsorMsg.t) : list (string * Z) :=
  flat_map (fun d =>
              match OrderedDict.get Z.eqb
                      (setdefault (ToFunsorMsg.dim_to_name msg) []) d with
              | Some (PlainName (Some n)) => [(n, py_index shape d)]
              | _ => []
              end)
           (NamedMessenger.batch_dims_of shape).

(** Dims are offsets from the end of a shape: the cursor is negative and so
    is every dim bound in a frame of the stack. *)
Definition negative_dims (s : DimStack.t) : Prop :=
  DimStack.first_available_dim s < 0
  /\ forall f, In f (DimStack.global_frame s :: DimStack.frames s) ->
               forall n d, StackFrame.read_name f n = Some d -> d < 0.

(* ================================================================== *)
(** * Further vocabulary: outcomes, repeated entries, nested windows *)
(* ================================================================== *)

(** The outcome of a computation seen through a projection of its result. *)
Definition map_outcome {S A B : Type} (f : A -> B) (o : outcome S A) : outcome S B :=
  match o with
  | Ok a s => Ok (f a) s
  | Raise e s => Raise e s
  end.

(** The resolver always returns. *)
Definition total_resolver (request : request_args -> DimStack.M (string * Z)) : Prop :=
  forall a s, exists p s', request a s = Ok p s'.

(** The entries that the exit stack of [LocalNamedMessenger.__iter__]
    accumulates over [n] steps: the same handler entered [n] times. *)
Fixpoint enter_times (n : nat) (h : LocalNamedMessenger.t)
  : DimStack.M LocalNamedMessenger.t :=
  match n with
  | O => ret h
  | S k => h1 <- LocalNamedMessenger.__enter__ h ;; enter_times k h1
  end.

(** The exits that the exit stack performs when the loop ends: the handler
    left once for every entry. *)
Fixpoint exit_times (n : nat) (h : LocalNamedMessenger.t)
  : DimStack.M LocalNamedMessenger.t :=
  match n with
  | O => ret h
  | S k => h1 <- LocalNamedMessenger.__exit__ h ;; exit_times k h1
  end.


(** [with h1: with h2: ...: body], where the body reads the cursor. *)
Fixpoint nested_windows (hs : list BaseEnumMessenger.t) : DimStack.M Z :=
  match hs with
  | [] => fun s => Ok (DimStack.first_available_dim s) s
  | h :: rest =>
      h1 <- BaseEnumMessenger.__enter__ h ;;
      c <- nested_windows rest ;;
      BaseEnumMessenger.__exit__ h1 ;;;
      ret c
  end.

(** The cursor inside nested windows: the override of the innermost window
    that has one, the cursor before the windows if none has. *)
Definition innermost_cursor (c : Z) (hs : list BaseEnumMessenger.t) : Z :=
  fold_left (fun c h => match BaseEnumMessenger.first_available_dim h with
                        | Some d => d
                        | None => c
                        end) hs c.

(** [h'] is [h] after a post hook has recorded [names]: the same handler,
    with one pair appended to [_saved_globals] for each name, in order, the
    name with the dim it has in frame [f]. *)
Definition records (h h' : GlobalNamedMessenger.t) (f : StackFrame.t)
  (names : list string) : Prop :=
  GlobalNamedMessenger.base h' = GlobalNamedMessenger.base h
  /\ exists added,
      GlobalNamedMessenger._saved_globals h'
      = GlobalNamedMessenger._saved_globals h ++ added
      /\ map fst added = names
      /\ forall n d, In (n, d) added -> StackFrame.read_name f n = Some d.

(* ================================================================== *)
(** * Ordered dictionaries and frozen sets *)
(* ================================================================== *)

Section DictFacts.
Variables (K V : Type) (eqb : K -> K -> bool).
Hypothesis eqb_eq : forall x y, eqb x y = true <-> x = y.

Lemma eqb_refl' : forall x, eqb x x = true.
Proof. intros x. now apply eqb_eq. Qed.

Lemma eqb_neq' : forall x y, x <> y -> eqb x y = false.
Proof.
  intros x y Hne. destruct (eqb x y) eqn:E; [|reflexivity].
  apply eqb_eq in E. contradiction.
Qed.

Lemma get_set_same (d : list (K * V)) k v :
  OrderedDict.get eqb (OrderedDict.set eqb d k v) k = Some v.
Proof.
  induction d as [|[k' v'] r IH]; simpl.
  - now rewrite eqb_refl'.
  - destruct (eqb k k') eqn:E; simpl.
    + now rewrite eqb_refl'.
    + now rewrite E.
Qed.

Lemma get_set_other (d : list (K * V)) k v k0 :
  k0 <> k ->
  OrderedDict.get eqb (OrderedDict.set eqb d k v) k0 = OrderedDict.get eqb d k0.
Proof.
  intros Hne. induction d as [|[k' v'] r IH]; simpl.
  - now rewrite (eqb_neq' _ _ Hne).
  - destruct (eqb k k') eqn:E; simpl.
    + apply eqb_eq in E. subst k'. now rewrite (eqb_neq' _ _ Hne).
    + now rewrite IH.
Qed.

Lemma get_pop_same (d : list (K * V)) k :
  OrderedDict.get eqb (OrderedDict.pop eqb d k) k = None.
Proof.
  induction d as [|[k' v'] r IH]; simpl; [reflexivity|].
  destruct (eqb k k') eqn:E; simpl; [assumption|].
  now rewrite E.
Qed.

Lemma get_pop_other (d : list (K * V)) k k0 :
  k0 <> k ->
  OrderedDict.get eqb (OrderedDict.pop eqb d k) k0 = OrderedDict.get eqb d k0.
Proof.
  intros Hne. induction d as [|[k' v'] r IH]; simpl; [reflexivity|].
  destruct (eqb k k') eqn:E; simpl.
  - apply eqb_eq in E. subst k'. now rewrite (eqb_neq' _ _ Hne).
  - now rewrite IH.
Qed.

Lemma get_Some_In (d : list (K * V)) k v :
  OrderedDict.get eqb d k = Some v -> In (k, v) d.
Proof.
  induction d as [|[k' v'] r IH]; simpl; [discriminate|].
  destruct (eqb k k') eqn:E.
  - intros [= <-]. apply eqb_eq in E. subst. now left.
  - intros H. right. now apply IH.
Qed.

Lemma get_None_notin (d : list (K * V)) k :
  OrderedDict.get eqb d k = None <-> ~ In k (OrderedDict.keys d).
Proof.
  induction d as [|[k' v'] r IH]; simpl.
  - split; [intros _ []|reflexivity].
  - destruct (eqb k k') eqn:E.
    + apply eqb_eq in E. subst. split; [discriminate|]. intros H. exfalso. apply H. now left.
    + rewrite IH. split.
      * intros H [Heq|Hin]; [|now apply H].
        subst k'. rewrite eqb_refl' in E. discriminate.
      * intros H Hin. apply H. now right.
Qed.

Lemma In_get_NoDup (d : list (K * V)) k v :
  NoDup (OrderedDict.keys d) -> In (k, v) d -> OrderedDict.get eqb d k = Some v.
Proof.
  induction d as [|[k' v'] r IH]; simpl; intros Hnd Hin; [contradiction|].
  inversion Hnd as [|? ? Hnot Hnd']; subst.
  destruct Hin as [[= -> ->]|Hin].
  - now rewrite eqb_refl'.
  - destruct (eqb k k') eqn:E.
    + apply eqb_eq in E. subst k'. exfalso. apply Hnot.
      change k with (fst (k, v)). now apply in_map.
    + now apply IH.
Qed.

Lemma keys_set_In (d : list (K * V)) k v k0 :
  In k0 (OrderedDict.keys (OrderedDict.set eqb d k v)) <->
  k0 = k \/ In k0 (OrderedDict.keys d).
Proof.
  induction d as [|[k' v'] r IH]; simpl.
  - intuition.
  - destruct (eqb k k') eqn:E; simpl.
    + apply eqb_eq in E. subst k'. intuition.
    + rewrite IH. intuition.
Qed.

Lemma mem_In (x : K) (l : list K) :
  FrozenSet.mem eqb x l = true <-> In x l.
Proof.
  unfold FrozenSet.mem. rewrite existsb_exists. split.
  - intros [y [Hin E]]. apply eqb_eq in E. now subst.
  - intros Hin. exists x. split; [assumption|apply eqb_refl'].
Qed.

Lemma subset_incl (l1 l2 : list K) :
  FrozenSet.subset eqb l1 l2 = true <-> (forall x, In x l1 -> In x l2).
Proof.
  unfold FrozenSet.subset. rewrite forallb_forall. split.
  - intros H x Hin. apply mem_In. now apply H.
  - intros H x Hin. apply mem_In. now apply H.
Qed.

Lemma equal_same_elements (l1 l2 : list K) :
  FrozenSet.equal eqb l1 l2 = true <-> (forall x, In x l1 <-> In x l2).
Proof.
  unfold FrozenSet.equal. rewrite andb_true_iff, !subset_incl. split.
  - intros [H1 H2] x. split; auto.
  - intros H. split; intros x; apply H.
Qed.

End DictFacts.

Lemma len_pos_nonempty {A : Type} (l : list A) : (len l >? 0) = true <-> l <> [].
Proof.
  unfold len. destruct l; simpl.
  - split; [discriminate|congruence].
  - split; [discriminate|]. intros _. apply Z.gtb_lt. lia.
Qed.

(* ================================================================== *)
(** * Validation of the supplied maps *)
(* ================================================================== *)

Lemma to_data_rejects request msg s :
  let supplied := OrderedDict.keys (setdefault (ToDataMsg.name_to_dim msg) []) in
  let relevant := OrderedDict.keys (Funsor.inputs (ToDataMsg.args msg)) in
  supplied <> [] ->
  ~ (forall x, In x relevant <-> In x supplied) ->
  NamedMessenger._pyro_to_data request msg s
  = Raise NamedMessenger.partial_name_to_dim s.
Proof.
  intros supplied relevant Hne Hdiff.
  unfold NamedMessenger._pyro_to_data.
  assert (Hlen : (len (setdefault (ToDataMsg.name_to_dim msg) []) >? 0) = true).
  { apply len_pos_nonempty. intros E. apply Hne. unfold supplied. now rewrite E. }
  rewrite Hlen.
  destruct (FrozenSet.equal String.eqb _ _) eqn:E; simpl; [|reflexivity].
  exfalso. apply Hdiff.
  now apply (equal_same_elements _ String.eqb String.eqb_eq).
Qed.

Lemma to_funsor_rejects request msg s :
  named_dims msg <> [] ->
  ~ (forall x, In x (NamedMessenger.msg_batch_dims msg) <-> In x (named_dims msg)) ->
  NamedMessenger._pyro_to_funsor request msg s
  = Raise NamedMessenger.partial_dim_to_name s.
Proof.
  intros Hne Hdiff.
  unfold NamedMessenger._pyro_to_funsor.
  assert (Hlen : (len (setdefault (ToFunsorMsg.dim_to_name msg) []) >? 0) = true).
  { apply len_pos_nonempty. intros E. apply Hne. unfold named_dims. now rewrite E. }
  rewrite Hlen.
  destruct (FrozenSet.equal Z.eqb _ _) eqn:E; simpl; [|reflexivity].
  exfalso. apply Hdiff.
  now apply (equal_same_elements _ Z.eqb Z.eqb_eq).
Qed.

(** C1: whatever the resolver, a to-positional call whose non-empty
    [name_to_dim] leaves out a batch name of the value raises the
    partial-specification error with the dimension stack untouched, so no
    request was served and nothing was completed; and likewise a to-named call
    whose non-empty [dim_to_name] leaves out a batch dim. *)
Theorem partial_specification_rejected :
  forall request : request_args -> DimStack.M (string * Z),
    (forall msg s,
        partially_specified
          (OrderedDict.keys (Funsor.inputs (ToDataMsg.args msg)))
          (OrderedDict.keys (setdefault (ToDataMsg.name_to_dim msg) [])) ->
        NamedMessenger._pyro_to_data request msg s
        = Raise NamedMessenger.partial_name_to_dim s)
    /\ (forall msg s,
        partially_specified (NamedMessenger.msg_batch_dims msg) (named_dims msg) ->
        NamedMessenger._pyro_to_funsor request msg s
        = Raise NamedMessenger.partial_dim_to_name s).
Proof.
  intros request. split; intros msg s [Hne [k [Hin Hnot]]].
  - apply to_data_rejects; [assumption|].
    intros H. apply Hnot. now apply H.
  - apply to_funsor_rejects; [assumption|].
    intros H. apply Hnot. now apply H.
Qed.

(** C10: whatever the resolver, a supplied map that covers every batch name
    (dim) and has an extra entry is rejected with the same error as a partial
    one, in both conversions: the check is equality of the two key sets. *)
Theorem superset_specification_rejected :
  forall request : request_args -> DimStack.M (string * Z),
    (forall msg s,
        strict_superset
          (OrderedDict.keys (Funsor.inputs (ToDataMsg.args msg)))
          (OrderedDict.keys (setdefault (ToDataMsg.name_to_dim msg) [])) ->
        NamedMessenger._pyro_to_data request msg s
        = Raise NamedMessenger.partial_name_to_dim s)
    /\ (forall msg s,
        strict_superset (NamedMessenger.msg_batch_dims msg) (named_dims msg) ->
        NamedMessenger._pyro_to_funsor request msg s
        = Raise NamedMessenger.partial_dim_to_name s).
Proof.
  intros request. split; intros msg s [Hcov [k [Hin Hnot]]].
  - apply to_data_rejects.
    + intros E. rewrite E in Hin. contradiction.
    + intros H. apply Hnot. now apply H.
  - apply to_funsor_rejects.
    + intros E. rewrite E in Hin. contradiction.
    + intros H. apply Hnot. now apply H.
Qed.

Lemma partial_specification_rejected_witness :
  NamedMessenger._pyro_to_data DimStack.request
    (ToDataMsg.mk (Funsor.mk [("x"%string, 2); ("y"%string, 3); ("z"%string, 4)])
                  (Some [("x"%string, PlainDim (Some (-1)));
                         ("y"%string, PlainDim (Some (-2)))])
                  None false)
    DimStack.initial
  = Raise NamedMessenger.partial_name_to_dim DimStack.initial
  /\ NamedMessenger._pyro_to_funsor DimStack.request
       (ToFunsorMsg.mk (WithShape [2; 3]) None None
                       (Some [(-1, PlainName (Some "y"%string))]) None None false)
       DimStack.initial
     = Raise NamedMessenger.partial_dim_to_name DimStack.initial.
Proof.
  split.
  - apply (proj1 (partial_specification_rejected DimStack.request)).
    split; [discriminate|].
    exists "z"%string. simpl. split; [auto|].
    intros [H|[H|[]]]; discriminate.
  - apply (proj2 (partial_specification_rejected DimStack.request)).
    split; [discriminate|].
    exists (-2). vm_compute. split; [auto|].
    intros [H|[]]; discriminate.
Defined.

Lemma superset_specification_rejected_witness :
  NamedMessenger._pyro_to_data DimStack.request
    (ToDataMsg.mk (Funsor.mk [("x"%string, 2)])
                  (Some [("x"%string, PlainDim (Some (-1)));
                         ("y"%string, PlainDim (Some (-2)))])
                  None false)
    DimStack.initial
  = Raise NamedMessenger.partial_name_to_dim DimStack.initial
  /\ NamedMessenger._pyro_to_funsor DimStack.request
       (ToFunsorMsg.mk (WithShape [2; 1]) None None
                       (Some [(-2, PlainName (Some "x"%string));
                              (-1, PlainName (Some "y"%string))]) None None false)
       DimStack.initial
     = Raise NamedMessenger.partial_dim_to_name DimStack.initial.
Proof.
  split.
  - apply (proj1 (superset_specification_rejected DimStack.request)).
    split.
    + simpl. intros k [<-|[]]. now left.
    + exists "y"%string. simpl. split; [auto|].
      intros [H|[]]; discriminate.
  - apply (proj2 (superset_specification_rejected DimStack.request)).
    split.
    + vm_compute. intros k [<-|[]]. now left.
    + exists (-1). vm_compute. split; [auto|].
      intros [H|[]]; discriminate.
Defined.

(* ================================================================== *)
(** * The batch dims of a to-named conversion *)
(* ================================================================== *)

Lemma py_slice_to_in_range {A : Type} (l : list A) (n : nat) :
  (n <= List.length l)%nat ->
  py_slice_to l (len l - Z.of_nat n) = firstn (List.length l - n) l.
Proof.
  intros Hle. unfold py_slice_to, len.
  assert (E : (Z.of_nat (List.length l) - Z.of_nat n <? 0) = false)
    by (apply Z.ltb_ge; lia).
  rewrite E. f_equal. lia.
Qed.

(** While the output has no more axes than the value, the slice of the
    source is the batch shape of the specification. *)
Lemma batch_shape_of_in_range (full_shape : list Z) (out : Domain.t) :
  (List.length (Domain.shape out) <= List.length full_shape)%nat ->
  NamedMessenger.batch_shape_of (WithShape full_shape)
                                (NamedMessenger.event_dim_of (Some out))
  = spec_batch_shape full_shape (List.length (Domain.shape out)).
Proof.
  intros Hle. unfold NamedMessenger.batch_shape_of, NamedMessenger.event_dim_of.
  unfold spec_batch_shape. unfold len at 2.
  now apply py_slice_to_in_range.
Qed.

Lemma batch_shape_of_no_output (full_shape : list Z) :
  NamedMessenger.batch_shape_of (WithShape full_shape)
                                (NamedMessenger.event_dim_of None)
  = spec_batch_shape full_shape 0.
Proof.
  unfold NamedMessenger.batch_shape_of, NamedMessenger.event_dim_of, spec_batch_shape.
  change 0 with (Z.of_nat 0). rewrite py_slice_to_in_range by lia. reflexivity.
Qed.

(** C9, at an output with more axes than the value: for a value of shape
    (2, 3, 4) and an output of four axes the slice bound is -1, the source
    keeps (2, 3) as batch shape and resolves the dims -2 and -1, where the
    full shape with its last four axes removed is empty and has no batch
    dim. *)
Theorem event_dim_beyond_rank_resolves_dims :
  let msg := ToFunsorMsg.mk (WithShape [2; 3; 4])
                            (Some (Some (Domain.mk [1; 1; 1; 1])))
                            None None None None false in
  NamedMessenger.batch_dims_of (spec_batch_shape [2; 3; 4] 4) = []
  /\ NamedMessenger.msg_batch_dims msg = [-2; -1]
  /\ exists msg' s',
      NamedMessenger._pyro_to_funsor DimStack.request msg DimStack.initial
      = Ok msg' s'
      /\ named_dims msg' = [-2; -1].
Proof.
  intros msg. split; [reflexivity|]. split; [reflexivity|].
  eexists. eexists. split; [vm_compute; reflexivity|reflexivity].
Qed.

(* ================================================================== *)
(** * Stack frames: writing and freeing bindings *)
(* ================================================================== *)

Lemma read_name_write f name dim f' n :
  StackFrame.write f name dim = Some f' ->
  StackFrame.read_name f' n
  = if String.eqb n name then Some dim else StackFrame.read_name f n.
Proof.
  unfold StackFrame.write. destruct (StackFrame.writable f name dim); [|discriminate].
  intros [= <-]. unfold StackFrame.read_name. simpl.
  destruct (String.eqb_spec n name) as [->|Hne].
  - apply (get_set_same _ _ String.eqb String.eqb_eq).
  - now apply (get_set_other _ _ String.eqb String.eqb_eq).
Qed.

Lemma read_dim_write f name dim f' d :
  StackFrame.write f name dim = Some f' ->
  StackFrame.read_dim f' d
  = if d =? dim then Some name else StackFrame.read_dim f d.
Proof.
  unfold StackFrame.write. destruct (StackFrame.writable f name dim); [|discriminate].
  intros [= <-]. unfold StackFrame.read_dim. simpl.
  destruct (Z.eqb_spec d dim) as [->|Hne].
  - apply (get_set_same _ _ Z.eqb Z.eqb_eq).
  - now apply (get_set_other _ _ Z.eqb Z.eqb_eq).
Qed.

Lemma write_Some_iff f name dim :
  (exists f', StackFrame.write f name dim = Some f')
  <-> (StackFrame.read_name f name = None \/ StackFrame.read_name f name = Some dim)
      /\ (StackFrame.read_dim f dim = None \/ StackFrame.read_dim f dim = Some name).
Proof.
  unfold StackFrame.write, StackFrame.writable.
  destruct (StackFrame.read_name f name) as [d|];
    destruct (StackFrame.read_dim f dim) as [n|]; simpl.
  - destruct (Z.eqb_spec d dim) as [->|Hd];
      destruct (String.eqb_spec n name) as [->|Hn]; simpl; split;
      try (intros [f' H]; discriminate); eauto;
      intros [[H1|H1] [H2|H2]]; congruence.
  - destruct (Z.eqb_spec d dim) as [->|Hd]; simpl; split;
      try (intros [f' H]; discriminate); eauto;
      intros [[H1|H1] _]; congruence.
  - destruct (String.eqb_spec n name) as [->|Hn]; simpl; split;
      try (intros [f' H]; discriminate); eauto;
      intros [_ [H2|H2]]; congruence.
  - split; eauto.
Qed.

(** A write that succeeds binds the pair and keeps every binding that was
    there. *)
Lemma write_bound f name dim f' :
  StackFrame.write f name dim = Some f' ->
  bound f' name dim
  /\ (forall n d, StackFrame.read_name f n = Some d -> StackFrame.read_name f' n = Some d)
  /\ (forall n d, StackFrame.read_dim f d = Some n -> StackFrame.read_dim f' d = Some n).
Proof.
  intros Hw.
  assert (Hex : exists f', StackFrame.write f name dim = Some f') by eauto.
  apply write_Some_iff in Hex. destruct Hex as [Hn Hd].
  split; [|split].
  - split.
    + rewrite (read_name_write _ _ _ _ _ Hw). now rewrite String.eqb_refl.
    + rewrite (read_dim_write _ _ _ _ _ Hw). now rewrite Z.eqb_refl.
  - intros n d H. rewrite (read_name_write _ _ _ _ _ Hw).
    destruct (String.eqb_spec n name) as [->|Hne]; [|assumption].
    destruct Hn as [Hn|Hn]; congruence.
  - intros n d H. rewrite (read_dim_write _ _ _ _ _ Hw).
    destruct (Z.eqb_spec d dim) as [->|Hne]; [|assumption].
    destruct Hd as [Hd|Hd]; congruence.
Qed.

Lemma write_keeps_bound f name dim f' n d :
  StackFrame.write f name dim = Some f' -> bound f n d -> bound f' n d.
Proof.
  intros Hw [H1 H2]. destruct (write_bound _ _ _ _ Hw) as [_ [Hn Hd]].
  split; auto.
Qed.

Lemma read_name_free f name dim n d :
  StackFrame.read_name (fst (StackFrame.free f name dim)) n = Some d
  <-> StackFrame.read_name f n = Some d /\ (n, d) <> (name, dim).
Proof.
  unfold StackFrame.free. simpl. unfold StackFrame.read_name at 1. simpl.
  destruct (StackFrame.read_name f name) as [d0|] eqn:E.
  - destruct (Z.eqb_spec d0 dim) as [->|Hd].
    + destruct (String.eqb_spec n name) as [->|Hne].
      * rewrite (get_pop_same _ _ String.eqb). split; [discriminate|].
        intros [H1 H2]. rewrite E in H1. congruence.
      * rewrite (get_pop_other _ _ String.eqb String.eqb_eq) by assumption.
        fold (StackFrame.read_name f n). split; [|tauto].
        intros H. split; [assumption|congruence].
    + fold (StackFrame.read_name f n). split; [|tauto].
      intros H. split; [assumption|]. intros [= -> ->]. congruence.
  - fold (StackFrame.read_name f n). split; [|tauto].
    intros H. split; [assumption|]. intros [= -> ->]. congruence.
Qed.

Lemma read_dim_free f name dim n d :
  StackFrame.read_dim (fst (StackFrame.free f name dim)) d = Some n
  <-> StackFrame.read_dim f d = Some n /\ (n, d) <> (name, dim).
Proof.
  unfold StackFrame.free. simpl. unfold StackFrame.read_dim at 1. simpl.
  destruct (StackFrame.read_dim f dim) as [n0|] eqn:E.
  - destruct (String.eqb_spec n0 name) as [->|Hn].
    + destruct (Z.eqb_spec d dim) as [->|Hne].
      * rewrite (get_pop_same _ _ Z.eqb). split; [discriminate|].
        intros [H1 H2]. rewrite E in H1. congruence.
      * rewrite (get_pop_other _ _ Z.eqb Z.eqb_eq) by assumption.
        fold (StackFrame.read_dim f d). split; [|tauto].
        intros H. split; [assumption|congruence].
    + fold (StackFrame.read_dim f d). split; [|tauto].
      intros H. split; [assumption|]. intros [= -> ->]. congruence.
  - fold (StackFrame.read_dim f d). split; [|tauto].
    intros H. split; [assumption|]. intros [= -> ->]. congruence.
Qed.

(* ================================================================== *)
(** * The global frame under the loops of the handlers *)
(* ================================================================== *)

Lemma with_global_frame_same s : DimStack.with_global_frame s (DimStack.global_frame s) = s.
Proof. now destruct s. Qed.

Lemma global_frame_with_global_frame s g :
  DimStack.global_frame (DimStack.with_global_frame s g) = g.
Proof. reflexivity. Qed.

Lemma free_all_spec pairs :
  forall saved s,
  exists g',
    DimStackCleanupMessenger.free_all pairs saved s
    = Ok (saved ++ pairs) (DimStack.with_global_frame s g')
    /\ (forall n d, StackFrame.read_name g' n = Some d
                    <-> StackFrame.read_name (DimStack.global_frame s) n = Some d
                        /\ ~ In (n, d) pairs)
    /\ (forall n d, StackFrame.read_dim g' d = Some n
                    <-> StackFrame.read_dim (DimStack.global_frame s) d = Some n
                        /\ ~ In (n, d) pairs).
Proof.
  induction pairs as [|[n0 d0] rest IH]; intros saved s.
  - exists (DimStack.global_frame s). simpl. unfold ret.
    rewrite with_global_frame_same, app_nil_r. repeat split; tauto.
  - simpl. unfold bind, DimStack.free_global. simpl.
    destruct (IH (saved ++ [(n0, d0)])
                 (DimStack.with_global_frame s
                    (fst (StackFrame.free (DimStack.global_frame s) n0 d0))))
      as [g' [Hrun [Hn Hd]]].
    exists g'. split; [|split].
    + unfold StackFrame.free in Hrun. simpl in Hrun.
      rewrite <- app_assoc in Hrun. exact Hrun.
    + intros n d. rewrite Hn, global_frame_with_global_frame, read_name_free.
      simpl. intuition congruence.
    + intros n d. rewrite Hd, global_frame_with_global_frame, read_dim_free.
      simpl. intuition congruence.
Qed.


(** What a run of writes into the global frame leaves, when it succeeds. *)
Lemma write_all_spec pairs :
  forall s s',
    DimStackCleanupMessenger.write_all pairs s = Ok tt s' ->
    exists g',
      s' = DimStack.with_global_frame s g'
      /\ (forall n d, In (n, d) pairs -> bound g' n d)
      /\ (forall n d, StackFrame.read_name (DimStack.global_frame s) n = Some d ->
                      StackFrame.read_name g' n = Some d)
      /\ (forall n d, StackFrame.read_dim (DimStack.global_frame s) d = Some n ->
                      StackFrame.read_dim g' d = Some n).
Proof.
  induction pairs as [|[n0 d0] rest IH]; intros s s'; simpl.
  - unfold ret. intros [= <-]. exists (DimStack.global_frame s).
    rewrite with_global_frame_same.
    split; [reflexivity|]. split; [intros n d []|]. split; auto.
  - unfold bind, DimStack.write_global.
    destruct (StackFrame.write (DimStack.global_frame s) n0 d0) as [g1|] eqn:Hw;
      [|discriminate].
    intros Hrun. apply IH in Hrun. destruct Hrun as [g' [-> [Hin [Hn Hd]]]].
    simpl in Hn, Hd.
    destruct (write_bound _ _ _ _ Hw) as [[Hb1 Hb2] [Hkn Hkd]].
    exists g'. split; [reflexivity|]. split; [|split].
    + intros n d [[= -> ->]|H]; [|now apply Hin]. split; auto.
    + intros n d H. auto.
    + intros n d H. auto.
Qed.

(** Writes of pairs with distinct names and dims, none of them bound yet,
    all succeed, and add exactly those pairs. *)
Lemma write_all_fresh pairs :
  forall s,
    NoDup (map fst pairs) -> NoDup (map snd pairs) ->
    (forall n d, In (n, d) pairs ->
                 StackFrame.read_name (DimStack.global_frame s) n = None
                 /\ StackFrame.read_dim (DimStack.global_frame s) d = None) ->
    exists g',
      DimStackCleanupMessenger.write_all pairs s
      = Ok tt (DimStack.with_global_frame s g')
      /\ (forall n d, StackFrame.read_name g' n = Some d
                      <-> StackFrame.read_name (DimStack.global_frame s) n = Some d
                          \/ In (n, d) pairs)
      /\ (forall n d, StackFrame.read_dim g' d = Some n
                      <-> StackFrame.read_dim (DimStack.global_frame s) d = Some n
                          \/ In (n, d) pairs).
Proof.
  induction pairs as [|[n0 d0] rest IH]; intros s Hnn Hnd Hfree; simpl.
  - exists (DimStack.global_frame s). unfold ret.
    rewrite with_global_frame_same. repeat split; tauto.
  - inversion Hnn as [|? ? Hn0 Hnn']; subst. inversion Hnd as [|? ? Hd0 Hnd']; subst.
    destruct (Hfree n0 d0 (or_introl eq_refl)) as [Hrn Hrd].
    destruct (proj2 (write_Some_iff (DimStack.global_frame s) n0 d0)) as [g1 Hw];
      [split; now left|].
    unfold bind, DimStack.write_global. rewrite Hw.
    destruct (IH (DimStack.with_global_frame s g1) Hnn' Hnd') as [g' [Hrun [Hn Hd]]].
    { intros n d Hin. simpl.
      rewrite (read_name_write _ _ _ _ _ Hw), (read_dim_write _ _ _ _ _ Hw).
      destruct (Hfree n d (or_intror Hin)) as [H1 H2].
      destruct (String.eqb_spec n n0) as [->|_].
      - exfalso. apply Hn0. change n0 with (fst (n0, d)). now apply in_map.
      - destruct (Z.eqb_spec d d0) as [->|_]; [|now split].
        exfalso. apply Hd0. change d0 with (snd (n, d0)). now apply in_map. }
    exists g'. split; [exact Hrun|]. simpl in Hn, Hd. split.
    + intros n d. rewrite Hn, (read_name_write _ _ _ _ _ Hw).
      destruct (String.eqb_spec n n0) as [->|Hne].
      * split.
        -- intros [[= <-]|H]; [right; now left|right; now right].
        -- intros [H|[[= <-]|H]]; [congruence|now left|now right].
      * split.
        -- intros [H|H]; [now left|right; now right].
        -- intros [H|[[= -> ->]|H]]; [now left|contradiction|now right].
    + intros n d. rewrite Hd, (read_dim_write _ _ _ _ _ Hw).
      destruct (Z.eqb_spec d d0) as [->|Hne].
      * split.
        -- intros [[= <-]|H]; [right; now left|right; now right].
        -- intros [H|[[= <-]|H]]; [congruence|now left|now right].
      * split.
        -- intros [H|H]; [now left|right; now right].
        -- intros [H|[[= -> ->]|H]]; [now left|contradiction|now right].
Qed.

(* ================================================================== *)
(** * The cleanup handler *)
(* ================================================================== *)

Lemma outermost_is_None_iff s :
  DimStackCleanupMessenger.outermost_is_None s = true <-> DimStack.outermost s = None.
Proof.
  unfold DimStackCleanupMessenger.outermost_is_None.
  destruct (DimStack.outermost s); split; congruence.
Qed.

Lemma is_outermost_iff h s :
  DimStackCleanupMessenger.is_outermost h s = true
  <-> DimStack.outermost s = Some (DimStackCleanupMessenger.self h).
Proof.
  unfold DimStackCleanupMessenger.is_outermost.
  destruct (DimStack.outermost s) as [o|]; [|split; congruence].
  rewrite Nat.eqb_eq. split; congruence.
Qed.

Lemma cleanup_enter_passive h s :
  (DimStackCleanupMessenger._ref_count h =? 0)
  && DimStackCleanupMessenger.outermost_is_None s = false ->
  DimStackCleanupMessenger.__enter__ h s
  = Ok (DimStackCleanupMessenger.mk (DimStackCleanupMessenger.self h)
          (DimStackCleanupMessenger._ref_count h + 1)
          (DimStackCleanupMessenger._saved_dims h)) s.
Proof.
  intros Hc. unfold DimStackCleanupMessenger.__enter__. rewrite Hc. reflexivity.
Qed.

Lemma cleanup_enter_claims h s :
  DimStackCleanupMessenger._ref_count h = 0 ->
  DimStack.outermost s = None ->
  DimStackCleanupMessenger.__enter__ h s
  = match DimStackCleanupMessenger.write_all
            (DimStackCleanupMessenger._saved_dims h)
            (DimStack.with_outermost s (Some (DimStackCleanupMessenger.self h)))
    with
    | Ok _ s' => Ok (DimStackCleanupMessenger.mk (DimStackCleanupMessenger.self h) 1 []) s'
    | Raise e s' => Raise e s'
    end.
Proof.
  intros Hr Ho. unfold DimStackCleanupMessenger.__enter__.
  rewrite Hr. apply outermost_is_None_iff in Ho. rewrite Ho. simpl.
  unfold bind, ret, DimStackCleanupMessenger.set_outermost.
  destruct (DimStackCleanupMessenger.write_all _ _); reflexivity.
Qed.

Lemma cleanup_exit_passive h s :
  (DimStackCleanupMessenger._ref_count h =? 1)
  && DimStackCleanupMessenger.is_outermost h s = false ->
  DimStackCleanupMessenger.__exit__ h s
  = Ok (DimStackCleanupMessenger.mk (DimStackCleanupMessenger.self h)
          (DimStackCleanupMessenger._ref_count h - 1)
          (DimStackCleanupMessenger._saved_dims h)) s.
Proof.
  intros Hc. unfold DimStackCleanupMessenger.__exit__. rewrite Hc. reflexivity.
Qed.

Lemma cleanup_exit_releases h s :
  DimStackCleanupMessenger._ref_count h = 1 ->
  DimStack.outermost s = Some (DimStackCleanupMessenger.self h) ->
  exists g',
    DimStackCleanupMessenger.__exit__ h s
    = Ok (DimStackCleanupMessenger.mk (DimStackCleanupMessenger.self h) 0
            (DimStackCleanupMessenger._saved_dims h
             ++ rev (StackFrame.name_to_dim (DimStack.global_frame s))))
         (DimStack.mk (DimStack.frames s) g' None (DimStack.iter_frame s) (-1))
    /\ (forall n, StackFrame.read_name g' n = None)
    /\ (forall n d, StackFrame.read_dim g' d = Some n
                    <-> StackFrame.read_dim (DimStack.global_frame s) d = Some n
                        /\ ~ In (n, d) (StackFrame.name_to_dim (DimStack.global_frame s))).
Proof.
  intros Hr Ho. unfold DimStackCleanupMessenger.__exit__.
  rewrite Hr. apply is_outermost_iff in Ho. rewrite Ho. simpl.
  unfold bind, ret, DimStackCleanupMessenger.set_outermost,
    DimStack.set_first_available_dim. simpl.
  match goal with
  | |- context [DimStackCleanupMessenger.free_all ?p ?sv ?st] =>
      destruct (free_all_spec p sv st) as [g' [Hrun [Hn Hd]]]
  end.
  simpl in Hn, Hd. exists g'. rewrite Hrun. simpl. split; [reflexivity|]. split.
  - intros n. destruct (StackFrame.read_name g' n) as [d|] eqn:E; [|reflexivity].
    apply Hn in E. destruct E as [E Hnot]. exfalso. apply Hnot.
    apply in_rev. rewrite rev_involutive.
    now apply (get_Some_In _ _ String.eqb String.eqb_eq).
  - intros n d. rewrite Hd, <- in_rev. reflexivity.
Qed.

Lemma write_all_outermost pairs :
  forall s,
    DimStack.outermost (final_state (DimStackCleanupMessenger.write_all pairs s))
    = DimStack.outermost s.
Proof.
  induction pairs as [|[n d] rest IH]; intros s; simpl; [reflexivity|].
  unfold bind, DimStack.write_global.
  destruct (StackFrame.write (DimStack.global_frame s) n d) as [g|]; [|reflexivity].
  now rewrite IH.
Qed.

(** C7: a cleanup handler that finds another instance as owner only counts
    its entry or exit: it takes no ownership, restores no stash, and leaves
    the whole dimension stack (cursor and global frame included) as it was;
    and [outermost] changes only on an entry from [_ref_count] 0, to the
    entering handler, and on an exit from [_ref_count] 1 of the owner, to
    [None]. *)
Theorem cleanup_ownership_exclusive :
  (forall h s o,
      DimStack.outermost s = Some o ->
      o <> DimStackCleanupMessenger.self h ->
      DimStackCleanupMessenger.__enter__ h s
      = Ok (DimStackCleanupMessenger.mk (DimStackCleanupMessenger.self h)
              (DimStackCleanupMessenger._ref_count h + 1)
              (DimStackCleanupMessenger._saved_dims h)) s
      /\ DimStackCleanupMessenger.__exit__ h s
         = Ok (DimStackCleanupMessenger.mk (DimStackCleanupMessenger.self h)
                 (DimStackCleanupMessenger._ref_count h - 1)
                 (DimStackCleanupMessenger._saved_dims h)) s)
  /\ (forall h s,
         DimStack.outermost (final_state (DimStackCleanupMessenger.__enter__ h s))
         <> DimStack.outermost s ->
         DimStackCleanupMessenger._ref_count h = 0
         /\ DimStack.outermost s = None
         /\ DimStack.outermost (final_state (DimStackCleanupMessenger.__enter__ h s))
            = Some (DimStackCleanupMessenger.self h))
  /\ (forall h s,
         DimStack.outermost (final_state (DimStackCleanupMessenger.__exit__ h s))
         <> DimStack.outermost s ->
         DimStackCleanupMessenger._ref_count h = 1
         /\ DimStack.outermost s = Some (DimStackCleanupMessenger.self h)
         /\ DimStack.outermost (final_state (DimStackCleanupMessenger.__exit__ h s))
            = None).
Proof.
  split; [|split].
  - intros h s o Ho Hne. split.
    + apply cleanup_enter_passive. apply andb_false_iff. right.
      unfold DimStackCleanupMessenger.outermost_is_None. now rewrite Ho.
    + apply cleanup_exit_passive. apply andb_false_iff. right.
      unfold DimStackCleanupMessenger.is_outermost. rewrite Ho.
      apply Nat.eqb_neq. exact Hne.
  - intros h s Hch.
    destruct ((DimStackCleanupMessenger._ref_count h =? 0)
              && DimStackCleanupMessenger.outermost_is_None s) eqn:Hc.
    + apply andb_true_iff in Hc. destruct Hc as [Hr Ho].
      apply Z.eqb_eq in Hr. apply outermost_is_None_iff in Ho.
      split; [assumption|]. split; [assumption|].
      rewrite (cleanup_enter_claims _ _ Hr Ho).
      pose proof (write_all_outermost (DimStackCleanupMessenger._saved_dims h)
                    (DimStack.with_outermost s (Some (DimStackCleanupMessenger.self h))))
        as Hw.
      destruct (DimStackCleanupMessenger.write_all _ _); exact Hw.
    + rewrite (cleanup_enter_passive _ _ Hc) in Hch. simpl in Hch. congruence.
  - intros h s Hch.
    destruct ((DimStackCleanupMessenger._ref_count h =? 1)
              && DimStackCleanupMessenger.is_outermost h s) eqn:Hc.
    + apply andb_true_iff in Hc. destruct Hc as [Hr Ho].
      apply Z.eqb_eq in Hr. apply is_outermost_iff in Ho.
      split; [assumption|]. split; [assumption|].
      destruct (cleanup_exit_releases _ _ Hr Ho) as [g' [Hrun _]].
      rewrite Hrun. reflexivity.
    + rewrite (cleanup_exit_passive _ _ Hc) in Hch. simpl in Hch. congruence.
Qed.

Lemma cleanup_ownership_exclusive_witness :
  let h := DimStackCleanupMessenger.mk 2 0 [("x"%string, -1)] in
  let s := DimStack.mk [] (StackFrame.fresh 0 false) (Some 1%nat) None (-3) in
  DimStackCleanupMessenger.__enter__ h s
  = Ok (DimStackCleanupMessenger.mk 2 1 [("x"%string, -1)]) s
  /\ DimStackCleanupMessenger.__exit__
       (DimStackCleanupMessenger.mk 2 1 [("x"%string, -1)]) s
     = Ok h s
  /\ DimStackCleanupMessenger._ref_count (DimStackCleanupMessenger.__init__ 1) = 0
  /\ DimStackCleanupMessenger._ref_count (DimStackCleanupMessenger.mk 1 1 []) = 1.
Proof.
  intros h s. split; [|split; [|split]].
  - apply (proj1 cleanup_ownership_exclusive h s 1%nat); [reflexivity|discriminate].
  - apply (proj1 cleanup_ownership_exclusive
             (DimStackCleanupMessenger.mk 2 1 [("x"%string, -1)]) s 1%nat);
      [reflexivity|discriminate].
  - refine (proj1 (proj1 (proj2 cleanup_ownership_exclusive)
                      (DimStackCleanupMessenger.__init__ 1) DimStack.initial _)).
    vm_compute. discriminate.
  - refine (proj1 (proj2 (proj2 cleanup_ownership_exclusive)
                      (DimStackCleanupMessenger.mk 1 1 [])
                      (DimStack.mk [] (StackFrame.fresh 0 false) (Some 1%nat) None (-3))
                      _)).
    vm_compute. discriminate.
Defined.

Lemma option_ext {A : Type} (o1 o2 : option A) :
  (forall a, o1 = Some a <-> o2 = Some a) -> o1 = o2.
Proof.
  intros H. destruct o1 as [a|], o2 as [b|]; try reflexivity.
  - now apply H.
  - symmetry. now apply H.
  - now apply H.
Qed.

Lemma NoDup_values (l : list (string * Z)) :
  NoDup (map fst l) ->
  (forall n1 n2 d, In (n1, d) l -> In (n2, d) l -> n1 = n2) ->
  NoDup (map snd l).
Proof.
  induction l as [|[n d] r IH]; simpl; intros Hnd Hinj; [constructor|].
  inversion Hnd as [|? ? Hnot Hnd']; subst. constructor.
  - intros Hin. apply in_map_iff in Hin. destruct Hin as [[n' d'] [E Hin]].
    simpl in E. subst d'.
    assert (n' = n) by (apply (Hinj n' n d); [now right|now left]).
    subst n'. apply Hnot. change n with (fst (n, d)). now apply in_map.
  - apply IH; [assumption|]. intros n1 n2 d0 H1 H2.
    apply (Hinj n1 n2 d0); now right.
Qed.

(** C4: the final exit of the cleanup owner releases the ownership, puts the
    cursor back to its initial value, stashes every pair bound in the global
    frame and leaves no name bound there; a first entry without an owner
    that succeeds takes the ownership, binds every stashed pair in the global
    frame again and empties the stash; and on a well-formed global frame the
    exit followed by the entry both succeed and give back every binding. *)
Theorem cleanup_final_exit_and_reentry :
  (forall h s,
      DimStackCleanupMessenger._ref_count h = 1 ->
      DimStack.outermost s = Some (DimStackCleanupMessenger.self h) ->
      exists h1 s1,
        DimStackCleanupMessenger.__exit__ h s = Ok h1 s1
        /\ DimStackCleanupMessenger._ref_count h1 = 0
        /\ DimStack.outermost s1 = None
        /\ DimStack.first_available_dim s1
           = DimStack.first_available_dim DimStack.initial
        /\ (forall n d,
               StackFrame.read_name (DimStack.global_frame s) n = Some d ->
               In (n, d) (DimStackCleanupMessenger._saved_dims h1))
        /\ (forall n, StackFrame.read_name (DimStack.global_frame s1) n = None))
  /\ (forall h s h1 s1,
         DimStackCleanupMessenger._ref_count h = 0 ->
         DimStack.outermost s = None ->
         DimStackCleanupMessenger.__enter__ h s = Ok h1 s1 ->
         DimStackCleanupMessenger._ref_count h1 = 1
         /\ DimStack.outermost s1 = Some (DimStackCleanupMessenger.self h)
         /\ DimStackCleanupMessenger._saved_dims h1 = []
         /\ (forall n d,
                In (n, d) (DimStackCleanupMessenger._saved_dims h) ->
                bound (DimStack.global_frame s1) n d))
  /\ (forall h s,
         DimStackCleanupMessenger._ref_count h = 1 ->
         DimStack.outermost s = Some (DimStackCleanupMessenger.self h) ->
         DimStackCleanupMessenger._saved_dims h = [] ->
         well_formed (DimStack.global_frame s) ->
         exists h1 s1 h2 s2,
           DimStackCleanupMessenger.__exit__ h s = Ok h1 s1
           /\ DimStackCleanupMessenger.__enter__ h1 s1 = Ok h2 s2
           /\ DimStackCleanupMessenger._saved_dims h2 = []
           /\ (forall n, StackFrame.read_name (DimStack.global_frame s2) n
                         = StackFrame.read_name (DimStack.global_frame s) n)
           /\ (forall d, StackFrame.read_dim (DimStack.global_frame s2) d
                         = StackFrame.read_dim (DimStack.global_frame s) d)).
Proof.
  split; [|split].
  - intros h s Hr Ho.
    destruct (cleanup_exit_releases _ _ Hr Ho) as [g' [Hrun [Hn Hd]]].
    eexists. eexists. split; [exact Hrun|]. simpl.
    repeat (split; [reflexivity|]). split; [|exact Hn].
    intros n d H. apply in_or_app. right. apply in_rev. rewrite rev_involutive.
    now apply (get_Some_In _ _ String.eqb String.eqb_eq).
  - intros h s h1 s1 Hr Ho Hrun.
    rewrite (cleanup_enter_claims _ _ Hr Ho) in Hrun.
    destruct (DimStackCleanupMessenger.write_all _ _) as [[] s'|] eqn:Hw;
      [|discriminate].
    injection Hrun as <- <-.
    apply write_all_spec in Hw. destruct Hw as [g' [-> [Hin _]]].
    simpl. repeat (split; [reflexivity|]). exact Hin.
  - intros h s Hr Ho Hsaved [Hnn [Hnd Hbij]]. unfold bijective in Hbij.
    destruct (cleanup_exit_releases _ _ Hr Ho) as [g1 [Hrun [Hn1 Hd1]]].
    rewrite Hsaved in Hrun. simpl in Hrun.
    set (items := StackFrame.name_to_dim (DimStack.global_frame s)) in *.
    assert (Hitems : forall n d,
               In (n, d) items
               <-> StackFrame.read_name (DimStack.global_frame s) n = Some d).
    { intros n d. split.
      - now apply (In_get_NoDup _ _ String.eqb String.eqb_eq).
      - now apply (get_Some_In _ _ String.eqb String.eqb_eq). }
    assert (Hd1' : forall d, StackFrame.read_dim g1 d = None).
    { intros d. destruct (StackFrame.read_dim g1 d) as [n|] eqn:E; [|reflexivity].
      apply Hd1 in E. destruct E as [E Hnot]. exfalso. apply Hnot.
      apply Hitems. now apply Hbij. }
    set (s1 := DimStack.mk (DimStack.frames s) g1 None (DimStack.iter_frame s) (-1)) in *.
    set (h1 := DimStackCleanupMessenger.mk (DimStackCleanupMessenger.self h) 0 (rev items)) in *.
    destruct (write_all_fresh (rev items)
                (DimStack.with_outermost s1 (Some (DimStackCleanupMessenger.self h1))))
      as [g2 [Hw [Hn2 Hd2]]].
    + rewrite map_rev. apply NoDup_rev. exact Hnn.
    + rewrite map_rev. apply NoDup_rev. apply NoDup_values; [exact Hnn|].
      intros n1 n2 d H1 H2. apply Hitems in H1, H2. apply Hbij in H1, H2. congruence.
    + intros n d _. simpl. split; [apply Hn1|apply Hd1'].
    + exists h1, s1. eexists. eexists. split; [exact Hrun|].
      split.
      * rewrite (cleanup_enter_claims h1 s1 eq_refl eq_refl).
        unfold h1 at 1. simpl DimStackCleanupMessenger._saved_dims.
        rewrite Hw. reflexivity.
      * split; [reflexivity|]. simpl. simpl in Hn2, Hd2. split.
        -- intros n. apply option_ext. intros d. rewrite Hn2, Hn1, <- in_rev, Hitems.
           split; [intros [H|H]; [discriminate|assumption]|now right].
        -- intros d. apply option_ext. intros n. rewrite Hd2, Hd1', <- in_rev, Hitems.
           rewrite Hbij.
           split; [intros [H|H]; [discriminate|assumption]|now right].
Qed.

Lemma cleanup_witness_frame_well_formed :
  well_formed (StackFrame.mk [("x"%string, -1); ("y"%string, -2)]
                             [(-1, "x"%string); (-2, "y"%string)] 0 false).
Proof.
  split; [|split].
  - simpl. repeat constructor; simpl; intuition discriminate.
  - simpl. repeat constructor; simpl; intuition discriminate.
  - intros n d. unfold StackFrame.read_name, StackFrame.read_dim. simpl.
    destruct (String.eqb_spec n "x") as [->|Hx];
      [|destruct (String.eqb_spec n "y") as [->|Hy]];
      (destruct (Z.eqb_spec d (-1)) as [->|H1];
       [|destruct (Z.eqb_spec d (-2)) as [->|H2]]);
      split; intros H; try discriminate; try reflexivity; try congruence.
Qed.

Lemma cleanup_final_exit_and_reentry_witness :
  let g := StackFrame.mk [("x"%string, -1); ("y"%string, -2)]
                         [(-1, "x"%string); (-2, "y"%string)] 0 false in
  let s := DimStack.mk [] g (Some 1%nat) None (-3) in
  let h := DimStackCleanupMessenger.mk 1 1 [] in
  (exists h1 s1 h2 s2,
      DimStackCleanupMessenger.__exit__ h s = Ok h1 s1
      /\ DimStackCleanupMessenger.__enter__ h1 s1 = Ok h2 s2
      /\ DimStackCleanupMessenger._saved_dims h2 = []
      /\ (forall n, StackFrame.read_name (DimStack.global_frame s2) n
                    = StackFrame.read_name g n)
      /\ (forall d, StackFrame.read_dim (DimStack.global_frame s2) d
                    = StackFrame.read_dim g d))
  /\ (exists h1 s1,
         DimStackCleanupMessenger.__exit__ h s = Ok h1 s1
         /\ DimStackCleanupMessenger._ref_count h1 = 0
         /\ DimStack.outermost s1 = None
         /\ DimStack.first_available_dim s1 = -1
         /\ (forall n d, StackFrame.read_name g n = Some d ->
                         In (n, d) (DimStackCleanupMessenger._saved_dims h1))
         /\ (forall n, StackFrame.read_name (DimStack.global_frame s1) n = None))
  /\ bound (DimStack.global_frame
              (final_state (DimStackCleanupMessenger.__enter__
                              (DimStackCleanupMessenger.mk 1 0 [("x"%string, -1)])
                              DimStack.initial)))
           "x"%string (-1).
Proof.
  intros g s h. split; [|split].
  - apply (proj2 (proj2 cleanup_final_exit_and_reentry) h s);
      [reflexivity|reflexivity|reflexivity|apply cleanup_witness_frame_well_formed].
  - apply (proj1 cleanup_final_exit_and_reentry h s); reflexivity.
  - refine (proj2 (proj2 (proj2
              (proj1 (proj2 cleanup_final_exit_and_reentry)
                 (DimStackCleanupMessenger.mk 1 0 [("x"%string, -1)])
                 DimStack.initial _ _ eq_refl eq_refl eq_refl))) "x"%string (-1) _).
    now left.
Defined.

(* ================================================================== *)
(** * The local scope handler *)
(* ================================================================== *)

Lemma write_all_frames pairs :
  forall s,
    DimStack.frames (final_state (DimStackCleanupMessenger.write_all pairs s))
    = DimStack.frames s
    /\ DimStack.first_available_dim
         (final_state (DimStackCleanupMessenger.write_all pairs s))
       = DimStack.first_available_dim s.
Proof.
  induction pairs as [|[n d] rest IH]; intros s; simpl; [now split|].
  unfold bind, DimStack.write_global.
  destruct (StackFrame.write (DimStack.global_frame s) n d) as [g|]; [|now split].
  destruct (IH (DimStack.with_global_frame s g)) as [H1 H2]. now split.
Qed.

(** Entering the cleanup handler touches neither the local frames nor the
    cursor, whether its restore succeeds or not. *)
Lemma cleanup_enter_frames h s :
  DimStack.frames (final_state (DimStackCleanupMessenger.__enter__ h s))
  = DimStack.frames s
  /\ DimStack.first_available_dim
       (final_state (DimStackCleanupMessenger.__enter__ h s))
     = DimStack.first_available_dim s.
Proof.
  destruct ((DimStackCleanupMessenger._ref_count h =? 0)
            && DimStackCleanupMessenger.outermost_is_None s) eqn:Hc.
  - apply andb_true_iff in Hc. destruct Hc as [Hr Ho].
    apply Z.eqb_eq in Hr. apply outermost_is_None_iff in Ho.
    rewrite (cleanup_enter_claims _ _ Hr Ho).
    pose proof (write_all_frames (DimStackCleanupMessenger._saved_dims h)
                  (DimStack.with_outermost s (Some (DimStackCleanupMessenger.self h))))
      as Hw.
    destruct (DimStackCleanupMessenger.write_all _ _); exact Hw.
  - rewrite (cleanup_enter_passive _ _ Hc). now split.
Qed.

(** Leaving the cleanup handler always returns, keeps the local frames, and
    moves the cursor only when the owner leaves for good. *)
Lemma cleanup_exit_total h s :
  exists h' s',
    DimStackCleanupMessenger.__exit__ h s = Ok h' s'
    /\ DimStack.frames s' = DimStack.frames s
    /\ DimStack.first_available_dim s'
       = (if (DimStackCleanupMessenger._ref_count h =? 1)
             && DimStackCleanupMessenger.is_outermost h s
          then -1 else DimStack.first_available_dim s).
Proof.
  destruct ((DimStackCleanupMessenger._ref_count h =? 1)
            && DimStackCleanupMessenger.is_outermost h s) eqn:Hc.
  - apply andb_true_iff in Hc. destruct Hc as [Hr Ho].
    apply Z.eqb_eq in Hr. apply is_outermost_iff in Ho.
    destruct (cleanup_exit_releases _ _ Hr Ho) as [g' [Hrun _]].
    eexists. eexists. split; [exact Hrun|]. now split.
  - rewrite (cleanup_exit_passive _ _ Hc). eexists. eexists.
    split; [reflexivity|]. now split.
Qed.

Lemma pop_last below f s :
  DimStack.frames s = below ++ [f] ->
  DimStack.pop s = Ok f (DimStack.with_frames s below).
Proof.
  intros E. unfold DimStack.pop. rewrite E, rev_unit, rev_involutive. reflexivity.
Qed.

Lemma local_enter_pushes h s frame saved :
  (frame, saved)
  = match LocalNamedMessenger.keep h, rev (LocalNamedMessenger._saved_frames h) with
    | true, f :: r => (f, rev r)
    | _, _ => (StackFrame.mk [] [] (LocalNamedMessenger.history h)
                             (LocalNamedMessenger.keep h),
               LocalNamedMessenger._saved_frames h)
    end ->
  DimStack.frames (final_state (LocalNamedMessenger.__enter__ h s))
  = DimStack.frames s ++ [frame]
  /\ forall h1 s1,
      LocalNamedMessenger.__enter__ h s = Ok h1 s1 ->
      LocalNamedMessenger._saved_frames h1 = saved
      /\ LocalNamedMessenger.history h1 = LocalNamedMessenger.history h
      /\ LocalNamedMessenger.keep h1 = LocalNamedMessenger.keep h.
Proof.
  intros E. unfold LocalNamedMessenger.__enter__. rewrite <- E.
  unfold bind, ret, DimStack.push.
  pose proof (cleanup_enter_frames (LocalNamedMessenger.base h)
                (DimStack.with_frames s (DimStack.frames s ++ [frame]))) as [Hf _].
  destruct (DimStackCleanupMessenger.__enter__ _ _) as [b s'|e s']; simpl in *.
  - split; [exact Hf|]. intros h1 s1 [= <- <-]. now repeat split.
  - split; [exact Hf|]. intros h1 s1 H. discriminate.
Qed.

Lemma local_exit_pops h s below f :
  DimStack.frames s = below ++ [f] ->
  exists h1 s1,
    LocalNamedMessenger.__exit__ h s = Ok h1 s1
    /\ DimStack.frames s1 = below
    /\ LocalNamedMessenger._saved_frames h1
       = (if LocalNamedMessenger.keep h
          then LocalNamedMessenger._saved_frames h ++ [f]
          else LocalNamedMessenger._saved_frames h)
    /\ LocalNamedMessenger.history h1 = LocalNamedMessenger.history h
    /\ LocalNamedMessenger.keep h1 = LocalNamedMessenger.keep h.
Proof.
  intros E. unfold LocalNamedMessenger.__exit__.
  destruct (cleanup_exit_total (LocalNamedMessenger.base h)
              (DimStack.with_frames s below)) as [b [s1 [Hrun [Hf _]]]].
  exists (LocalNamedMessenger.mk b (LocalNamedMessenger.history h)
            (LocalNamedMessenger.keep h)
            (if LocalNamedMessenger.keep h
             then LocalNamedMessenger._saved_frames h ++ [f]
             else LocalNamedMessenger._saved_frames h)), s1.
  split; [|now repeat split].
  unfold bind, ret. destruct (LocalNamedMessenger.keep h);
    unfold bind, ret; rewrite (pop_last _ _ _ E), Hrun; reflexivity.
Qed.

(** C6: with [keep] set, leaving the scope archives the popped frame behind
    the earlier ones and the next entry pushes the last archived frame and
    takes it off the archive, so an exit followed by an entry puts the same
    frames back; without [keep], every entry pushes an empty frame of the
    handler's history and the exit drops the popped frame. *)
Theorem local_scope_keep_replays :
  (forall h s below f,
      LocalNamedMessenger.keep h = true ->
      DimStack.frames s = below ++ [f] ->
      exists h1 s1,
        LocalNamedMessenger.__exit__ h s = Ok h1 s1
        /\ DimStack.frames s1 = below
        /\ LocalNamedMessenger._saved_frames h1
           = LocalNamedMessenger._saved_frames h ++ [f]
        /\ DimStack.frames (final_state (LocalNamedMessenger.__enter__ h1 s1))
           = DimStack.frames s)
  /\ (forall h s older f,
         LocalNamedMessenger.keep h = true ->
         LocalNamedMessenger._saved_frames h = older ++ [f] ->
         DimStack.frames (final_state (LocalNamedMessenger.__enter__ h s))
         = DimStack.frames s ++ [f]
         /\ forall h1 s1,
             LocalNamedMessenger.__enter__ h s = Ok h1 s1 ->
             LocalNamedMessenger._saved_frames h1 = older)
  /\ (forall h s,
         LocalNamedMessenger.keep h = false ->
         DimStack.frames (final_state (LocalNamedMessenger.__enter__ h s))
         = DimStack.frames s
             ++ [StackFrame.mk [] [] (LocalNamedMessenger.history h) false]
         /\ (forall h1 s1,
                LocalNamedMessenger.__enter__ h s = Ok h1 s1 ->
                LocalNamedMessenger._saved_frames h1
                = LocalNamedMessenger._saved_frames h)
         /\ (forall below f,
                DimStack.frames s = below ++ [f] ->
                exists h1 s1,
                  LocalNamedMessenger.__exit__ h s = Ok h1 s1
                  /\ DimStack.frames s1 = below
                  /\ LocalNamedMessenger._saved_frames h1
                     = LocalNamedMessenger._saved_frames h)).
Proof.
  assert (Hreplay : forall h s older f,
             LocalNamedMessenger.keep h = true ->
             LocalNamedMessenger._saved_frames h = older ++ [f] ->
             DimStack.frames (final_state (LocalNamedMessenger.__enter__ h s))
             = DimStack.frames s ++ [f]
             /\ forall h1 s1,
                 LocalNamedMessenger.__enter__ h s = Ok h1 s1 ->
                 LocalNamedMessenger._saved_frames h1 = older).
  { intros h s older f Hk Hs.
    destruct (local_enter_pushes h s f older) as [Hf Hs'].
    - rewrite Hk, Hs, rev_unit, rev_involutive. reflexivity.
    - split; [exact Hf|]. intros h1 s1 H. now destruct (Hs' h1 s1 H). }
  split; [|split].
  - intros h s below f Hk E.
    destruct (local_exit_pops h s below f E) as [h1 [s1 [Hrun [Hf [Hs [_ Hk1]]]]]].
    rewrite Hk in Hs, Hk1. exists h1, s1.
    split; [exact Hrun|]. split; [exact Hf|]. split; [exact Hs|].
    destruct (Hreplay h1 s1 _ f Hk1 Hs) as [H _]. rewrite H, Hf, E. reflexivity.
  - exact Hreplay.
  - intros h s Hk.
    destruct (local_enter_pushes h s
                (StackFrame.mk [] [] (LocalNamedMessenger.history h) false)
                (LocalNamedMessenger._saved_frames h)) as [Hf Hs'].
    { rewrite Hk. reflexivity. }
    split; [exact Hf|]. split.
    + intros h1 s1 H. now destruct (Hs' h1 s1 H).
    + intros below f E.
      destruct (local_exit_pops h s below f E) as [h1 [s1 [Hrun [Hf1 [Hs [_ _]]]]]].
      rewrite Hk in Hs. exists h1, s1. now repeat split.
Qed.

Lemma local_scope_keep_replays_witness :
  let f := StackFrame.mk [("x"%string, -1)] [(-1, "x"%string)] 1 true in
  let s := DimStack.mk [f] (StackFrame.fresh 0 false) (Some 7%nat) None (-1) in
  let h := LocalNamedMessenger.mk (DimStackCleanupMessenger.mk 1 1 []) 1 true [] in
  (exists h1 s1,
      LocalNamedMessenger.__exit__ h s = Ok h1 s1
      /\ DimStack.frames s1 = []
      /\ LocalNamedMessenger._saved_frames h1 = [f]
      /\ DimStack.frames (final_state (LocalNamedMessenger.__enter__ h1 s1)) = [f])
  /\ DimStack.frames
       (final_state
          (LocalNamedMessenger.__enter__
             (LocalNamedMessenger.mk (DimStackCleanupMessenger.mk 1 0 []) 1 true [f])
             DimStack.initial))
     = [f]
  /\ DimStack.frames
       (final_state
          (LocalNamedMessenger.__enter__
             (LocalNamedMessenger.__init__ 1 1 false) DimStack.initial))
     = [StackFrame.mk [] [] 1 false].
Proof.
  intros f s h. split; [|split].
  - apply (proj1 local_scope_keep_replays h s [] f); reflexivity.
  - refine (proj1 (proj1 (proj2 local_scope_keep_replays)
                     (LocalNamedMessenger.mk (DimStackCleanupMessenger.mk 1 0 []) 1 true [f])
                     DimStack.initial [] f eq_refl eq_refl)).
  - refine (proj1 (proj2 (proj2 local_scope_keep_replays)
                     (LocalNamedMessenger.__init__ 1 1 false) DimStack.initial eq_refl)).
Defined.

(* ================================================================== *)
(** * The dim-window handler *)
(* ================================================================== *)

Lemma enum_enter_with_override h s d :
  BaseEnumMessenger.first_available_dim h = Some d ->
  DimStackCleanupMessenger._ref_count (BaseEnumMessenger.base h) = 0 ->
  BaseEnumMessenger.__enter__ h s
  = match DimStackCleanupMessenger.__enter__ (BaseEnumMessenger.base h)
            (DimStack.with_first_available_dim s d) with
    | Ok b s' => Ok (BaseEnumMessenger.mk b (Some d)
                       (Some (DimStack.first_available_dim s))) s'
    | Raise e s' => Raise e s'
    end.
Proof.
  intros Hd Hr. unfold BaseEnumMessenger.__enter__. rewrite Hd, Hr. simpl.
  unfold bind, ret, DimStack.set_first_available_dim.
  destruct (DimStackCleanupMessenger.__enter__ _ _); reflexivity.
Qed.





(* ================================================================== *)
(** * Requests on the dimension stack *)
(* ================================================================== *)





(* ================================================================== *)
(** * Iterating a local scope of history 1 *)
(* ================================================================== *)












(* ================================================================== *)
(** * Global bindings inside nested scopes *)
(* ================================================================== *)

Section GlobalBinding.
Variables (name : string) (dim : Z).





















End GlobalBinding.







(* ================================================================== *)
(** * Requests and the frame they write into *)
(* ================================================================== *)

Lemma read_frames_head ty s :
  exists rest, DimStack.read_frames ty s = target ty s :: rest.
Proof.
  destruct ty; simpl; eauto.
  unfold DimStack.local_window, DimStack.current_frame.
  destruct (rev (DimStack.frames s)); eauto.
Qed.

Lemma write_target_run ty n d s :
  match StackFrame.write (target ty s) n d with
  | Some f' => exists s', DimStack.write_target ty n d s = Ok tt s' /\ target ty s' = f'
  | None => DimStack.write_target ty n d s = Raise AssertionError s
  end.
Proof.
  assert (Hg : match StackFrame.write (DimStack.global_frame s) n d with
               | Some f' => exists s', DimStack.write_global n d s = Ok tt s'
                                       /\ DimStack.global_frame s' = f'
                                       /\ DimStack.frames s' = DimStack.frames s
               | None => DimStack.write_global n d s = Raise AssertionError s
               end).
  { unfold DimStack.write_global.
    destruct (StackFrame.write (DimStack.global_frame s) n d); [|reflexivity].
    eexists. split; [reflexivity|]. now split. }
  destruct ty; simpl.
  - unfold DimStack.write_current, DimStack.current_frame.
    destruct (rev (DimStack.frames s)) as [|f below] eqn:E.
    + destruct (StackFrame.write (DimStack.global_frame s) n d); [|exact Hg].
      destruct Hg as [s' [Hrun [Hgf Hfr]]]. exists s'. split; [exact Hrun|].
      now rewrite Hfr, E.
    + destruct (StackFrame.write f n d) as [f'|]; [|reflexivity].
      eexists. split; [reflexivity|]. simpl. now rewrite rev_unit.
  - destruct (StackFrame.write (DimStack.global_frame s) n d); [|exact Hg].
    destruct Hg as [s' [Hrun [Hgf _]]]. eauto.
  - destruct (StackFrame.write (DimStack.global_frame s) n d); [|exact Hg].
    destruct Hg as [s' [Hrun [Hgf _]]]. eauto.
Qed.

(** A request that returns has bound the pair it returns in its target
    frame and has kept the bindings of that frame; a given name, and a dim
    given without a name, come back as they were given. *)
Lemma resolve_binds on od ty p s s' :
  DimStack.resolve on od ty s = Ok p s' ->
  bound (target ty s') (fst p) (snd p)
  /\ (forall n d, bound (target ty s) n d -> bound (target ty s') n d)
  /\ (forall n, on = Some n -> fst p = n)
  /\ (forall d, on = None -> od = Some d -> snd p = d).
Proof.
  unfold DimStack.resolve, bind, ret.
  match goal with
  | |- context [DimStack.write_target ty (fst ?x) (snd ?x) s] => set (q := x)
  end.
  pose proof (write_target_run ty (fst q) (snd q) s) as Hrun.
  destruct (StackFrame.write (target ty s) (fst q) (snd q)) as [f'|] eqn:Hw.
  - destruct Hrun as [s1 [Hrun Ht]]. rewrite Hrun. intros [= <- <-].
    rewrite Ht. split; [now apply (write_bound _ _ _ _ Hw)|]. split; [|split].
    + intros n d Hb. now apply (write_keeps_bound _ _ _ _ _ _ Hw).
    + intros n ->. unfold q. destruct (DimStack.find_name _ n); reflexivity.
    + intros d -> ->. unfold q. destruct (DimStack.find_dim _ d); reflexivity.
  - rewrite Hrun. discriminate.
Qed.

Lemma resolve_found_by_name n d od ty s :
  bound (target ty s) n d ->
  exists s', DimStack.resolve (Some n) od ty s = Ok (n, d) s'.
Proof.
  intros [H1 H2]. unfold DimStack.resolve, bind, ret.
  destruct (read_frames_head ty s) as [rest ->]. simpl. rewrite H1. simpl.
  pose proof (write_target_run ty n d s) as Hrun.
  destruct (proj2 (write_Some_iff (target ty s) n d)) as [f' Hw];
    [split; now right|].
  rewrite Hw in Hrun. destruct Hrun as [s' [Hrun _]]. rewrite Hrun. eauto.
Qed.

Lemma resolve_found_by_dim n d ty s :
  bound (target ty s) n d ->
  exists s', DimStack.resolve None (Some d) ty s = Ok (n, d) s'.
Proof.
  intros [H1 H2]. unfold DimStack.resolve, bind, ret.
  destruct (read_frames_head ty s) as [rest ->]. simpl. rewrite H2. simpl.
  pose proof (write_target_run ty n d s) as Hrun.
  destruct (proj2 (write_Some_iff (target ty s) n d)) as [f' Hw];
    [split; now right|].
  rewrite Hw in Hrun. destruct Hrun as [s' [Hrun _]]. rewrite Hrun. eauto.
Qed.

Lemma bound_same_name f n d d' : bound f n d -> bound f n d' -> d = d'.
Proof. intros [H1 _] [H2 _]. congruence. Qed.

Lemma bound_same_dim f n n' d : bound f n d -> bound f n' d -> n = n'.
Proof. intros [_ H1] [_ H2]. congruence. Qed.

(* ================================================================== *)
(** * The loops of the two conversions *)
(* ================================================================== *)

(** The loop of [to_data] over names with no entry of their own: every name
    ends up with the dim it is bound to in the target frame. *)
Lemma to_data_loop_binds ty names :
  forall ntd ntd' s s',
    (forall n, In n names ->
               OrderedDict.get String.eqb ntd n = None
               \/ exists d, OrderedDict.get String.eqb ntd n = Some (PlainDim d)) ->
    NamedMessenger.to_data_loop DimStack.request ty names ntd s = Ok ntd' s' ->
    (forall n, In n names ->
               exists d, OrderedDict.get String.eqb ntd' n = Some (PlainDim (Some d))
                         /\ bound (target ty s') n d)
    /\ (forall n d, bound (target ty s) n d -> bound (target ty s') n d)
    /\ (forall n, ~ In n names ->
                  OrderedDict.get String.eqb ntd' n = OrderedDict.get String.eqb ntd n).
Proof.
  induction names as [|n0 rest IH]; intros ntd ntd' s s' Hplain;
    cbn [NamedMessenger.to_data_loop].
  - unfold ret. intros [= <- <-]. split; [intros n []|]. split; auto.
  - unfold bind.
    match goal with
    | |- context [DimStack.request (ByName n0 ?x) s] => set (r := x)
    end.
    assert (Hty : DimRequest.dim_type r = ty).
    { unfold r. destruct (Hplain n0 (or_introl eq_refl)) as [->|[d ->]]; reflexivity. }
    destruct (DimStack.request (ByName n0 r) s) as [p s1|] eqn:Hreq; [|discriminate].
    simpl in Hreq. rewrite Hty in Hreq.
    destruct (resolve_binds _ _ _ _ _ _ Hreq) as [Hb [Hkeep [Hfst _]]].
    specialize (Hfst n0 eq_refl).
    intros Hrest.
    apply IH in Hrest.
    + destruct Hrest as [Hin [Hkeep' Hout]]. split; [|split].
      * intros n [<-|Hn]; [|now apply Hin].
        destruct (in_dec string_dec n0 rest) as [Hr|Hr]; [now apply Hin|].
        exists (snd p). split.
        -- rewrite (Hout n0 Hr).
           apply (get_set_same _ _ String.eqb String.eqb_eq).
        -- apply Hkeep'. rewrite Hfst in Hb. exact Hb.
      * intros n d H. auto.
      * intros n Hn. rewrite Hout by (intros H; apply Hn; now right).
        apply (get_set_other _ _ String.eqb String.eqb_eq).
        intros ->. apply Hn. now left.
    + intros n Hn. destruct (string_dec n n0) as [->|Hne].
      * right. eexists. apply (get_set_same _ _ String.eqb String.eqb_eq).
      * rewrite (get_set_other _ _ String.eqb String.eqb_eq) by assumption.
        apply Hplain. now right.
Qed.

(** That loop returns when every name is already bound in the target
    frame. *)
Lemma to_data_loop_runs ty names :
  forall ntd s,
    (forall n, In n names ->
               OrderedDict.get String.eqb ntd n = None
               \/ exists d, OrderedDict.get String.eqb ntd n = Some (PlainDim d)) ->
    (forall n, In n names -> exists d, bound (target ty s) n d) ->
    exists ntd' s',
      NamedMessenger.to_data_loop DimStack.request ty names ntd s = Ok ntd' s'.
Proof.
  induction names as [|n0 rest IH]; intros ntd s Hplain Hb;
    cbn [NamedMessenger.to_data_loop].
  - unfold ret. eauto.
  - unfold bind.
    match goal with
    | |- context [DimStack.request (ByName n0 ?x) s] => set (r := x)
    end.
    assert (Hty : DimRequest.dim_type r = ty).
    { unfold r. destruct (Hplain n0 (or_introl eq_refl)) as [->|[d ->]]; reflexivity. }
    destruct (Hb n0 (or_introl eq_refl)) as [d0 Hb0].
    destruct (resolve_found_by_name n0 d0 (DimRequest.dim r) ty s Hb0) as [s1 Hreq].
    simpl. rewrite Hty, Hreq.
    destruct (resolve_binds _ _ _ _ _ _ Hreq) as [_ [Hkeep _]].
    apply IH.
    + intros n Hn. destruct (string_dec n n0) as [->|Hne].
      * right. eexists. apply (get_set_same _ _ String.eqb String.eqb_eq).
      * rewrite (get_set_other _ _ String.eqb String.eqb_eq) by assumption.
        apply Hplain. now right.
    + intros n Hn. destruct (Hb n (or_intror Hn)) as [d Hd]. eauto.
Qed.

Lemma to_funsor_loop_binds ty dims :
  forall dtn dtn' s s',
    (forall d, In d dims -> OrderedDict.get Z.eqb dtn d = None) ->
    NoDup dims ->
    NamedMessenger.to_funsor_loop DimStack.request ty dims dtn s = Ok dtn' s' ->
    (forall d, In d dims ->
               exists n, OrderedDict.get Z.eqb dtn' d = Some (PlainName (Some n))
                         /\ bound (target ty s') n d)
    /\ (forall n d, bound (target ty s) n d -> bound (target ty s') n d)
    /\ (forall d, ~ In d dims ->
                  OrderedDict.get Z.eqb dtn' d = OrderedDict.get Z.eqb dtn d).
Proof.
  induction dims as [|d0 rest IH]; intros dtn dtn' s s' Hnone Hnd;
    cbn [NamedMessenger.to_funsor_loop].
  - unfold ret. intros [= <- <-]. split; [intros d []|]. split; auto.
  - inversion Hnd as [|? ? Hnot Hnd']; subst.
    unfold bind. rewrite (Hnone d0 (or_introl eq_refl)).
    destruct (DimStack.request _ s) as [p s1|] eqn:Hreq; [|discriminate].
    simpl in Hreq.
    destruct (resolve_binds _ _ _ _ _ _ Hreq) as [Hb [Hkeep [_ Hsnd]]].
    specialize (Hsnd d0 eq_refl eq_refl).
    intros Hrest. apply IH in Hrest; [|
      intros d Hd; rewrite (get_set_other _ _ Z.eqb Z.eqb_eq)
        by (intros ->; contradiction); apply Hnone; now right | assumption].
    destruct Hrest as [Hin [Hkeep' Hout]]. split; [|split].
    + intros d [<-|Hd]; [|now apply Hin].
      exists (fst p). split.
      * rewrite (Hout d0 Hnot). apply (get_set_same _ _ Z.eqb Z.eqb_eq).
      * apply Hkeep'. rewrite Hsnd in Hb. exact Hb.
    + intros n d H. auto.
    + intros d Hd. rewrite Hout by (intros H; apply Hd; now right).
      apply (get_set_other _ _ Z.eqb Z.eqb_eq).
      intros ->. apply Hd. now left.
Qed.

Lemma to_funsor_loop_runs ty dims :
  forall dtn s,
    (forall d, In d dims -> OrderedDict.get Z.eqb dtn d = None) ->
    NoDup dims ->
    (forall d, In d dims -> exists n, bound (target ty s) n d) ->
    exists dtn' s',
      NamedMessenger.to_funsor_loop DimStack.request ty dims dtn s = Ok dtn' s'.
Proof.
  induction dims as [|d0 rest IH]; intros dtn s Hnone Hnd Hb;
    cbn [NamedMessenger.to_funsor_loop].
  - unfold ret. eauto.
  - inversion Hnd as [|? ? Hnot Hnd']; subst.
    unfold bind. rewrite (Hnone d0 (or_introl eq_refl)).
    destruct (Hb d0 (or_introl eq_refl)) as [n0 Hb0].
    destruct (resolve_found_by_dim n0 d0 ty s Hb0) as [s1 Hreq].
    simpl. rewrite Hreq.
    destruct (resolve_binds _ _ _ _ _ _ Hreq) as [_ [Hkeep _]].
    apply IH.
    + intros d Hd. rewrite (get_set_other _ _ Z.eqb Z.eqb_eq)
        by (intros ->; contradiction). apply Hnone. now right.
    + assumption.
    + intros d Hd. destruct (Hb d (or_intror Hd)) as [n Hn]. eauto.
Qed.

(* ================================================================== *)
(** * Shapes at the boundary with the tensor layer *)
(* ================================================================== *)

Lemma In_range lo hi d : In d (range lo hi) <-> lo <= d < hi.
Proof.
  unfold range. rewrite in_map_iff. split.
  - intros [i [<- Hi]]. apply in_seq in Hi. lia.
  - intros H. exists (Z.to_nat (d - lo)). split; [lia|]. apply in_seq. lia.
Qed.

Lemma NoDup_map_injective {A B : Type} (f : A -> B) (l : list A) :
  (forall x y, f x = f y -> x = y) -> NoDup l -> NoDup (map f l).
Proof.
  intros Hinj Hnd. induction Hnd as [|x l Hnot Hnd IH]; simpl; constructor.
  - intros Hin. apply in_map_iff in Hin. destruct Hin as [y [E Hy]].
    apply Hinj in E. now subst y.
  - exact IH.
Qed.

Lemma range_NoDup lo hi : NoDup (range lo hi).
Proof.
  unfold range. apply NoDup_map_injective; [|apply seq_NoDup].
  intros i j H. lia.
Qed.

Lemma range_length lo hi : List.length (range lo hi) = Z.to_nat (hi - lo).
Proof. unfold range. now rewrite length_map, length_seq. Qed.

Lemma range_nth lo hi i :
  (i < Z.to_nat (hi - lo))%nat -> nth i (range lo hi) 0 = lo + Z.of_nat i.
Proof.
  intros Hi. unfold range.
  rewrite (nth_indep _ 0 (lo + Z.of_nat 0)) by (now rewrite length_map, length_seq).
  rewrite (map_nth (fun i => lo + Z.of_nat i)). now rewrite seq_nth.
Qed.

Lemma batch_dims_In shape d :
  In d (NamedMessenger.batch_dims_of shape)
  <-> - len shape <= d < 0 /\ 1 < py_index shape d.
Proof.
  unfold NamedMessenger.batch_dims_of. rewrite filter_In, In_range.
  rewrite Z.gtb_lt. tauto.
Qed.

Lemma batch_dims_NoDup shape : NoDup (NamedMessenger.batch_dims_of shape).
Proof. apply NoDup_filter, range_NoDup. Qed.

Lemma rank_bounds (sizes : list (Z * Z)) :
  0 <= fold_right Z.max 0 (map (fun e => - fst e) sizes)
  /\ forall d sz, In (d, sz) sizes ->
                  - d <= fold_right Z.max 0 (map (fun e => - fst e) sizes).
Proof.
  induction sizes as [|[d0 sz0] r [IH1 IH2]]; simpl.
  - split; [lia|]. intros d sz [].
  - split; [lia|]. intros d sz [[= <- <-]|Hin]; [lia|].
    specialize (IH2 d sz Hin). lia.
Qed.

Lemma data_shape_len sizes :
  len (data_shape sizes) = fold_right Z.max 0 (map (fun e => - fst e) sizes).
Proof.
  unfold data_shape, len. rewrite length_map, range_length.
  pose proof (rank_bounds sizes) as [H _]. lia.
Qed.

Lemma data_shape_index sizes d :
  - len (data_shape sizes) <= d < 0 ->
  py_index (data_shape sizes) d
  = match OrderedDict.get Z.eqb sizes d with Some size => size | None => 1 end.
Proof.
  intros Hd. unfold py_index.
  assert (E : (d <? 0) = true) by (apply Z.ltb_lt; lia). rewrite E.
  rewrite data_shape_len in *.
  set (rank := fold_right Z.max 0 (map (fun e => - fst e) sizes)) in *.
  unfold data_shape. fold rank.
  set (f := fun d => match OrderedDict.get Z.eqb sizes d with
                     | Some size => size
                     | None => 1
                     end).
  assert (Hi : (Z.to_nat (rank + d) < Z.to_nat (0 - - rank))%nat) by lia.
  rewrite (nth_indep _ 0 (f 0)) by (now rewrite length_map, range_length).
  rewrite (map_nth f). rewrite range_nth by exact Hi.
  replace (- rank + Z.of_nat (Z.to_nat (rank + d))) with d by lia.
  reflexivity.
Qed.

Lemma In_get_functional {K V : Type} (eqb : K -> K -> bool)
  (eqb_eq : forall x y, eqb x y = true <-> x = y) (l : list (K * V)) k v :
  (forall v', In (k, v') l -> v' = v) ->
  In (k, v) l -> OrderedDict.get eqb l k = Some v.
Proof.
  intros Hfun Hin.
  destruct (OrderedDict.get eqb l k) as [v'|] eqn:E.
  - f_equal. apply Hfun. now apply (get_Some_In _ _ eqb eqb_eq).
  - apply (get_None_notin _ _ eqb eqb_eq) in E. exfalso. apply E.
    change k with (fst (k, v)). now apply in_map.
Qed.

(** The batch dims of the materialised shape are the dims that carry an
    input of size above 1, with that size. *)
Lemma data_shape_batch sizes :
  (forall d sz, In (d, sz) sizes -> d < 0) ->
  (forall d sz sz', In (d, sz) sizes -> In (d, sz') sizes -> sz' = sz) ->
  forall d,
    In d (NamedMessenger.batch_dims_of (data_shape sizes))
    <-> exists sz, In (d, sz) sizes /\ 1 < sz /\ py_index (data_shape sizes) d = sz.
Proof.
  intros Hneg Hfun d. rewrite batch_dims_In. split.
  - intros [Hd Hsz]. rewrite (data_shape_index _ _ Hd) in Hsz.
    destruct (OrderedDict.get Z.eqb sizes d) as [sz|] eqn:E; [|lia].
    exists sz. split; [now apply (get_Some_In _ _ Z.eqb Z.eqb_eq)|].
    split; [exact Hsz|]. rewrite (data_shape_index _ _ Hd). now rewrite E.
  - intros [sz [Hin [Hsz Hidx]]].
    assert (Hd : - len (data_shape sizes) <= d < 0).
    { rewrite data_shape_len. pose proof (rank_bounds sizes) as [_ H].
      specialize (H d sz Hin). specialize (Hneg d sz Hin). lia. }
    split; [exact Hd|]. now rewrite Hidx.
Qed.

Lemma in_positional_sizes msg d sz :
  In (d, sz) (positional_sizes msg)
  <-> exists n, In (n, sz) (Funsor.inputs (ToDataMsg.args msg))
                /\ OrderedDict.get String.eqb
                     (setdefault (ToDataMsg.name_to_dim msg) []) n
                   = Some (PlainDim (Some d)).
Proof.
  unfold positional_sizes. rewrite in_flat_map. split.
  - intros [[n sz0] [Hin Hx]]. simpl in Hx.
    destruct (OrderedDict.get String.eqb _ n) as [[[d0|]|]|] eqn:E;
      try contradiction.
    destruct Hx as [[= <- <-]|[]]. eauto.
  - intros [n [Hin E]]. exists (n, sz). split; [exact Hin|].
    simpl. rewrite E. now left.
Qed.

Lemma in_named_sizes shape msg n sz :
  In (n, sz) (named_sizes shape msg)
  <-> exists d, In d (NamedMessenger.batch_dims_of shape)
                /\ OrderedDict.get Z.eqb
                     (setdefault (ToFunsorMsg.dim_to_name msg) []) d
                   = Some (PlainName (Some n))
                /\ sz = py_index shape d.
Proof.
  unfold named_sizes. rewrite in_flat_map. split.
  - intros [d [Hin Hx]].
    destruct (OrderedDict.get Z.eqb _ d) as [[[n0|]|]|] eqn:E;
      try contradiction.
    destruct Hx as [[= <- <-]|[]]. eauto.
  - intros [d [Hin [E ->]]]. exists d. split; [exact Hin|].
    rewrite E. now left.
Qed.

Lemma to_data_call_run v ty s :
  NamedMessenger._pyro_to_data DimStack.request (to_data_call v ty) s
  = match NamedMessenger.to_data_loop DimStack.request (setdefault ty LOCAL)
            (OrderedDict.keys (Funsor.inputs v)) [] s with
    | Ok ntd s' => Ok (ToDataMsg.mk v (Some ntd) (Some (setdefault ty LOCAL)) true) s'
    | Raise e s' => Raise e s'
    end.
Proof. reflexivity. Qed.

Lemma msg_batch_dims_call shape ty :
  NamedMessenger.msg_batch_dims (to_funsor_call shape ty)
  = NamedMessenger.batch_dims_of shape.
Proof.
  unfold NamedMessenger.msg_batch_dims, to_funsor_call, NamedMessenger.msg_output.
  simpl ToFunsorMsg.raw_value. simpl setdefault. cbv iota beta.
  rewrite batch_shape_of_no_output. unfold spec_batch_shape.
  now rewrite Nat.sub_0_r, firstn_all.
Qed.

Lemma to_funsor_call_run shape ty s :
  NamedMessenger._pyro_to_funsor DimStack.request (to_funsor_call shape ty) s
  = match NamedMessenger.to_funsor_loop DimStack.request (setdefault ty LOCAL)
            (NamedMessenger.batch_dims_of shape) [] s with
    | Ok dtn s' => Ok (ToFunsorMsg.mk (WithShape shape) None (Some None) (Some dtn)
                         (Some (setdefault ty LOCAL)) None true) s'
    | Raise e s' => Raise e s'
    end.
Proof.
  unfold NamedMessenger._pyro_to_funsor. rewrite msg_batch_dims_call. reflexivity.
Qed.

(* ================================================================== *)
(** * Dims stay negative *)
(* ================================================================== *)

Lemma next_free_le fuel used :
  forall d, DimStack.next_free fuel used d <= d.
Proof.
  induction fuel as [|k IH]; intros d; simpl;
    destruct (FrozenSet.mem Z.eqb d used); try lia.
  specialize (IH (d - 1)). lia.
Qed.

Lemma find_name_In fs n d :
  DimStack.find_name fs n = Some d ->
  exists f, In f fs /\ StackFrame.read_name f n = Some d.
Proof.
  induction fs as [|f r IH]; simpl; [discriminate|].
  destruct (StackFrame.read_name f n) as [d'|] eqn:E.
  - intros [= <-]. exists f. split; [now left|exact E].
  - intros H. destruct (IH H) as [f' [Hin Hr]]. exists f'. split; [now right|exact Hr].
Qed.

Lemma firstn_incl {A : Type} (k : nat) (l : list A) x : In x (firstn k l) -> In x l.
Proof.
  revert l. induction k as [|k IH]; intros l; simpl; [intros []|].
  destruct l as [|y l]; [intros []|]. intros [<-|H]; [now left|right; now apply IH].
Qed.

Lemma read_frames_all ty s f :
  In f (DimStack.read_frames ty s) ->
  In f (DimStack.global_frame s :: DimStack.frames s).
Proof.
  assert (Hg : In f [DimStack.global_frame s] ->
               In f (DimStack.global_frame s :: DimStack.frames s))
    by (intros [<-|[]]; now left).
  destruct ty; simpl; try exact Hg.
  unfold DimStack.local_window.
  destruct (rev (DimStack.frames s)) as [|f0 below] eqn:E; [exact Hg|].
  intros Hin. right. apply in_rev. rewrite E.
  destruct Hin as [<-|Hin]; [now left|right; now apply (firstn_incl _ _ _ Hin)].
Qed.

Lemma write_target_frames ty n d u s s' :
  DimStack.write_target ty n d s = Ok u s' ->
  DimStack.first_available_dim s' = DimStack.first_available_dim s
  /\ forall f', In f' (DimStack.global_frame s' :: DimStack.frames s') ->
                In f' (DimStack.global_frame s :: DimStack.frames s)
                \/ exists f, In f (DimStack.global_frame s :: DimStack.frames s)
                             /\ StackFrame.write f n d = Some f'.
Proof.
  assert (Hg : DimStack.write_global n d s = Ok u s' ->
               DimStack.first_available_dim s' = DimStack.first_available_dim s
               /\ forall f', In f' (DimStack.global_frame s' :: DimStack.frames s') ->
                             In f' (DimStack.global_frame s :: DimStack.frames s)
                             \/ exists f, In f (DimStack.global_frame s :: DimStack.frames s)
                                          /\ StackFrame.write f n d = Some f').
  { unfold DimStack.write_global.
    destruct (StackFrame.write (DimStack.global_frame s) n d) as [g|] eqn:Hw;
      [|discriminate].
    intros [= _ <-]. split; [reflexivity|]. simpl.
    intros f' [<-|Hin]; [right|left; now right].
    exists (DimStack.global_frame s). split; [now left|exact Hw]. }
  destruct ty; simpl; try exact Hg.
  unfold DimStack.write_current.
  destruct (rev (DimStack.frames s)) as [|f below] eqn:E; [exact Hg|].
  destruct (StackFrame.write f n d) as [f1|] eqn:Hw; [|discriminate].
  intros [= _ <-]. split; [reflexivity|]. simpl.
  assert (Hf : In f (DimStack.frames s)) by (apply in_rev; rewrite E; now left).
  intros f' [<-|Hin]; [left; now left|].
  apply in_app_or in Hin. destruct Hin as [Hin|[<-|[]]].
  - left. right. apply in_rev. rewrite E. right. now apply in_rev.
  - right. exists f. split; [now right|exact Hw].
Qed.

(** A request without a dim, or with a negative one, returns a negative dim
    and leaves every dim of the stack negative. *)
Lemma resolve_negative on od ty p s s' :
  negative_dims s ->
  (forall d, od = Some d -> d < 0) ->
  DimStack.resolve on od ty s = Ok p s' ->
  on <> None \/ od <> None ->
  snd p < 0 /\ negative_dims s'.
Proof.
  intros [Hcur Hall] Hod. unfold DimStack.resolve, bind, ret.
  match goal with
  | |- context [DimStack.write_target ty (fst ?x) (snd ?x) s] => set (q := x)
  end.
  intros Hrun Hgiven.
  assert (Hq : snd q < 0).
  { unfold q. destruct on as [n|].
    - destruct (DimStack.find_name _ n) as [d|] eqn:E; simpl.
      + apply find_name_In in E. destruct E as [f [Hin Hr]].
        apply (Hall f (read_frames_all _ _ _ Hin) n d Hr).
      + destruct od as [d|]; [now apply Hod|].
        unfold DimStack.fresh_dim.
        pose proof (next_free_le (List.length (DimStack.used_dims s))
                      (DimStack.used_dims s) (DimStack.first_available_dim s)).
        lia.
    - destruct od as [d|]; [|destruct Hgiven; congruence].
      destruct (DimStack.find_dim _ d); simpl; now apply Hod. }
  destruct (DimStack.write_target ty (fst q) (snd q) s) as [u s1|] eqn:Hw;
    [|discriminate].
  injection Hrun as <- <-. split; [exact Hq|].
  destruct (write_target_frames _ _ _ _ _ _ Hw) as [Hc Hfr].
  split; [now rewrite Hc|].
  intros f' Hin n d Hr. destruct (Hfr f' Hin) as [Hold|[f [Hf Hwf]]].
  - now apply (Hall f' Hold n d).
  - rewrite (read_name_write _ _ _ _ _ Hwf) in Hr.
    destruct (String.eqb n (fst q)); [now injection Hr as <-|].
    now apply (Hall f Hf n d).
Qed.

Lemma to_data_loop_negative ty names :
  forall ntd ntd' s s',
    negative_dims s ->
    (forall n, In n names ->
               OrderedDict.get String.eqb ntd n = None
               \/ exists d, OrderedDict.get String.eqb ntd n = Some (PlainDim d)
                            /\ forall d', d = Some d' -> d' < 0) ->
    NamedMessenger.to_data_loop DimStack.request ty names ntd s = Ok ntd' s' ->
    negative_dims s'.
Proof.
  induction names as [|n0 rest IH]; intros ntd ntd' s s' Hneg Hplain;
    cbn [NamedMessenger.to_data_loop].
  - unfold ret. now intros [= _ <-].
  - unfold bind.
    match goal with
    | |- context [DimStack.request (ByName n0 ?x) s] => set (r := x)
    end.
    assert (Hr : forall d, DimRequest.dim r = Some d -> d < 0).
    { unfold r. destruct (Hplain n0 (or_introl eq_refl)) as [->|[d [-> Hd]]];
        simpl; [discriminate|exact Hd]. }
    destruct (DimStack.request (ByName n0 r) s) as [p s1|] eqn:Hreq; [|discriminate].
    simpl in Hreq.
    destruct (resolve_negative _ _ _ _ _ _ Hneg Hr Hreq) as [Hp Hneg1];
      [left; discriminate|].
    apply IH; [exact Hneg1|].
    intros n Hn. destruct (string_dec n n0) as [->|Hne].
    + right. eexists. split; [apply (get_set_same _ _ String.eqb String.eqb_eq)|].
      now intros d' [= <-].
    + rewrite (get_set_other _ _ String.eqb String.eqb_eq) by assumption.
      apply Hplain. now right.
Qed.

Lemma target_in_stack ty s :
  In (target ty s) (DimStack.global_frame s :: DimStack.frames s).
Proof.
  destruct (read_frames_head ty s) as [rest E].
  apply (read_frames_all ty). rewrite E. now left.
Qed.

(* ================================================================== *)
(** * Round trips *)
(* ================================================================== *)

Lemma NoDup_keys_functional {V : Type} (l : list (string * V)) k v v' :
  NoDup (OrderedDict.keys l) -> In (k, v) l -> In (k, v') l -> v = v'.
Proof.
  intros Hnd H1 H2.
  apply (In_get_NoDup _ _ String.eqb String.eqb_eq _ _ _ Hnd) in H1, H2.
  congruence.
Qed.

(** C3, as the source has it: a named value whose inputs all have a size
    above 1 is converted to positional, without a supplied map, on a stack
    whose dims are negative; if that conversion returns, converting the
    resulting shape back to named (same dim type, no output, no supplied map)
    returns too and gives every name its size back and no other name.  And a
    positional value whose conversion to named returns is converted back to
    positional with every batch dim (the dims of size above 1) at its place
    with its size, and no other dim. *)
Theorem conversions_round_trip :
  (forall v ty s msg1 s1,
      NoDup (OrderedDict.keys (Funsor.inputs v)) ->
      (forall n sz, In (n, sz) (Funsor.inputs v) -> 1 < sz) ->
      negative_dims s ->
      NamedMessenger._pyro_to_data DimStack.request (to_data_call v ty) s
      = Ok msg1 s1 ->
      exists msg2 s2,
        NamedMessenger._pyro_to_funsor DimStack.request
          (to_funsor_call (data_shape (positional_sizes msg1)) ty) s1
        = Ok msg2 s2
        /\ forall n sz,
            In (n, sz) (named_sizes (data_shape (positional_sizes msg1)) msg2)
            <-> In (n, sz) (Funsor.inputs v))
  /\ (forall shape ty s msg1 s1,
         NamedMessenger._pyro_to_funsor DimStack.request (to_funsor_call shape ty) s
         = Ok msg1 s1 ->
         exists msg2 s2,
           NamedMessenger._pyro_to_data DimStack.request
             (to_data_call (Funsor.mk (named_sizes shape msg1)) ty) s1
           = Ok msg2 s2
           /\ forall d sz,
               In (d, sz) (positional_sizes msg2) <-> In (d, sz) (batch_sizes shape)).
Proof.
  split.
  { intros v ty s msg1 s1.
    intros Hnd Hsz Hneg Hrun. rewrite to_data_call_run in Hrun.
    set (ty' := setdefault ty LOCAL) in *.
    destruct (NamedMessenger.to_data_loop _ _ _ _ s) as [ntd s1'|] eqn:Hl; [|discriminate].
    injection Hrun as <- <-.
    assert (Hplain : forall n, In n (OrderedDict.keys (Funsor.inputs v)) ->
                               OrderedDict.get String.eqb (@nil (string * dim_entry)) n = None
                               \/ exists d, OrderedDict.get String.eqb
                                              (@nil (string * dim_entry)) n
                                            = Some (PlainDim d))
      by (intros; now left).
    destruct (to_data_loop_binds _ _ _ _ _ _ Hplain Hl) as [F1 [Hkeep _]].
    assert (Hneg1 : negative_dims s1').
    { apply (to_data_loop_negative _ _ _ _ _ _ Hneg) in Hl; [exact Hl|].
      intros; now left. }
    set (T := target ty' s1') in *.
    set (msg1 := ToDataMsg.mk v (Some ntd) (Some ty') true).
    set (sizes := positional_sizes msg1).
    assert (Hbound : forall d sz, In (d, sz) sizes ->
                                  exists n, In (n, sz) (Funsor.inputs v) /\ bound T n d).
    { intros d sz Hin. apply in_positional_sizes in Hin.
      destruct Hin as [n [Hin E]]. simpl in Hin, E.
      exists n. split; [exact Hin|].
      destruct (F1 n) as [d' [E' Hb]].
      - change n with (fst (n, sz)). now apply in_map.
      - rewrite E in E'. injection E' as <-. exact Hb. }
    assert (Hnegs : forall d sz, In (d, sz) sizes -> d < 0).
    { intros d sz Hin. destruct (Hbound d sz Hin) as [n [_ [Hr _]]].
      destruct Hneg1 as [_ Hall].
      apply (Hall T (target_in_stack ty' s1') n d Hr). }
    assert (Hfun : forall d sz sz', In (d, sz) sizes -> In (d, sz') sizes -> sz' = sz).
    { intros d sz sz' H1 H2.
      destruct (Hbound d sz H1) as [n [Hn Hb]].
      destruct (Hbound d sz' H2) as [n' [Hn' Hb']].
      assert (n = n') by (apply (bound_same_dim T n n' d); assumption). subst n'.
      apply (NoDup_keys_functional _ _ _ _ Hnd Hn' Hn). }
    pose proof (data_shape_batch sizes Hnegs Hfun) as Hbatch.
    set (shape := data_shape sizes) in *.
    assert (Hnone : forall d, In d (NamedMessenger.batch_dims_of shape) ->
                              OrderedDict.get Z.eqb (@nil (Z * name_entry)) d = None)
      by reflexivity.
    destruct (to_funsor_loop_runs ty' (NamedMessenger.batch_dims_of shape) [] s1'
                Hnone (batch_dims_NoDup shape)) as [dtn [s2 Hl2]].
    { intros d Hd. apply Hbatch in Hd. destruct Hd as [sz [Hin _]].
      destruct (Hbound d sz Hin) as [n [_ Hb]]. eauto. }
    destruct (to_funsor_loop_binds _ _ _ _ _ _ Hnone (batch_dims_NoDup shape) Hl2)
      as [F2 [Hkeep2 _]].
    eexists. exists s2. split.
    { rewrite to_funsor_call_run. fold ty'. rewrite Hl2. reflexivity. }
    intros n sz. rewrite in_named_sizes. simpl setdefault. split.
    - intros [d [Hd [E ->]]].
      destruct (F2 d Hd) as [n' [E' Hb2]]. rewrite E in E'. injection E' as <-.
      apply Hbatch in Hd. destruct Hd as [sz [Hin [_ Hidx]]].
      destruct (Hbound d sz Hin) as [n0 [Hn0 Hb0]].
      apply Hkeep2 in Hb0.
      assert (n = n0) by (apply (bound_same_dim (target ty' s2) n n0 d); assumption). subst n0.
      now rewrite Hidx.
    - intros Hin.
      destruct (F1 n) as [d [E Hb]].
      { change n with (fst (n, sz)). now apply in_map. }
      assert (Hs : In (d, sz) sizes).
      { apply in_positional_sizes. exists n. split; [exact Hin|exact E]. }
      assert (Hd : In d (NamedMessenger.batch_dims_of shape)).
      { apply Hbatch. exists sz. split; [exact Hs|]. split; [now apply (Hsz n)|].
        unfold shape. rewrite data_shape_index.
        - now rewrite (In_get_functional Z.eqb Z.eqb_eq sizes d sz
                         (fun sz' H => Hfun d sz sz' Hs H) Hs).
        - rewrite data_shape_len. pose proof (rank_bounds sizes) as [_ H].
          specialize (H d sz Hs). specialize (Hnegs d sz Hs). lia. }
      exists d. split; [exact Hd|].
      destruct (F2 d Hd) as [n' [E' Hb2]].
      apply Hkeep2 in Hb.
      assert (n' = n) by (apply (bound_same_dim (target ty' s2) n' n d); assumption). subst n'.
      split; [exact E'|].
      apply Hbatch in Hd. destruct Hd as [sz' [Hin' [_ Hidx]]].
      rewrite Hidx. symmetry. now apply (Hfun d sz sz'). }
  { intros shape ty s msg1 s1.
    intros Hrun. rewrite to_funsor_call_run in Hrun.
    set (ty' := setdefault ty LOCAL) in *.
    destruct (NamedMessenger.to_funsor_loop _ _ _ _ s) as [dtn s1'|] eqn:Hl; [|discriminate].
    injection Hrun as <- <-.
    assert (Hnone : forall d, In d (NamedMessenger.batch_dims_of shape) ->
                              OrderedDict.get Z.eqb (@nil (Z * name_entry)) d = None)
      by reflexivity.
    destruct (to_funsor_loop_binds _ _ _ _ _ _ Hnone (batch_dims_NoDup shape) Hl)
      as [F2 [_ _]].
    set (msg1 := ToFunsorMsg.mk (WithShape shape) None (Some None) (Some dtn)
                                (Some ty') None true).
    set (named := named_sizes shape msg1).
    assert (Hnamed : forall n sz, In (n, sz) named ->
                                  exists d, In d (NamedMessenger.batch_dims_of shape)
                                            /\ sz = py_index shape d
                                            /\ bound (target ty' s1') n d).
    { intros n sz Hin. apply in_named_sizes in Hin.
      destruct Hin as [d [Hd [E ->]]]. simpl in E.
      destruct (F2 d Hd) as [n' [E' Hb]]. rewrite E in E'. injection E' as <-.
      exists d. split; [exact Hd|]. split; [reflexivity|exact Hb]. }
    assert (Hplain : forall n, In n (OrderedDict.keys named) ->
                               OrderedDict.get String.eqb (@nil (string * dim_entry)) n = None
                               \/ exists d, OrderedDict.get String.eqb
                                              (@nil (string * dim_entry)) n
                                            = Some (PlainDim d))
      by (intros; now left).
    destruct (to_data_loop_runs ty' (OrderedDict.keys named) [] s1' Hplain)
      as [ntd [s2 Hl2]].
    { intros n Hn. apply in_map_iff in Hn. destruct Hn as [[n' sz] [<- Hin]].
      destruct (Hnamed n' sz Hin) as [d [_ [_ Hb]]]. eauto. }
    destruct (to_data_loop_binds _ _ _ _ _ _ Hplain Hl2) as [F1 [Hkeep _]].
    eexists. exists s2. split.
    { rewrite to_data_call_run. fold ty'. simpl Funsor.inputs. fold named.
      rewrite Hl2. reflexivity. }
    intros d sz. rewrite in_positional_sizes. simpl.
    unfold batch_sizes. rewrite in_map_iff. split.
    - intros [n [Hin E]].
      destruct (Hnamed n sz Hin) as [d0 [Hd0 [-> Hb0]]].
      destruct (F1 n) as [d' [E' Hb']].
      { change n with (fst (n, py_index shape d0)). now apply in_map. }
      rewrite E in E'. injection E' as <-.
      apply Hkeep in Hb0.
      assert (d = d0) by (apply (bound_same_name (target ty' s2) n d d0); assumption). subst d0.
      exists d. now split.
    - intros [d0 [[= -> <-] Hd]].
      destruct (F2 d Hd) as [n [E Hb]].
      assert (Hin : In (n, py_index shape d) named).
      { apply in_named_sizes. exists d. split; [exact Hd|]. split; [exact E|reflexivity]. }
      exists n. split; [exact Hin|].
      destruct (F1 n) as [d' [E' Hb']].
      { change n with (fst (n, py_index shape d)). now apply in_map. }
      apply Hkeep in Hb.
      assert (d' = d) by (apply (bound_same_name (target ty' s2) n d' d); assumption). subst d'.
      exact E'. }
Qed.

Lemma initial_negative_dims : negative_dims DimStack.initial.
Proof.
  split; [reflexivity|]. intros f [<-|[]] n d H. discriminate.
Qed.

Lemma conversions_round_trip_witness :
  let v := Funsor.mk [("x"%string, 2); ("y"%string, 3)] in
  (exists msg1 s1,
      NamedMessenger._pyro_to_data DimStack.request (to_data_call v None)
                                   DimStack.initial
      = Ok msg1 s1
      /\ exists msg2 s2,
          NamedMessenger._pyro_to_funsor DimStack.request
            (to_funsor_call (data_shape (positional_sizes msg1)) None) s1
          = Ok msg2 s2
          /\ forall n sz,
              In (n, sz) (named_sizes (data_shape (positional_sizes msg1)) msg2)
              <-> In (n, sz) (Funsor.inputs v))
  /\ (exists msg1 s1,
         NamedMessenger._pyro_to_funsor DimStack.request
           (to_funsor_call [3; 1; 2] (Some GLOBAL)) DimStack.initial
         = Ok msg1 s1
         /\ exists msg2 s2,
             NamedMessenger._pyro_to_data DimStack.request
               (to_data_call (Funsor.mk (named_sizes [3; 1; 2] msg1)) (Some GLOBAL)) s1
             = Ok msg2 s2
             /\ forall d sz,
                 In (d, sz) (positional_sizes msg2)
                 <-> In (d, sz) (batch_sizes [3; 1; 2])).
Proof.
  intros v. split.
  - eexists. eexists. split; [vm_compute; reflexivity|].
    apply (proj1 conversions_round_trip v None DimStack.initial).
    + simpl. repeat constructor; simpl; intuition discriminate.
    + intros n sz [[= <- <-]|[[= <- <-]|[]]]; lia.
    + exact initial_negative_dims.
    + vm_compute. reflexivity.
  - eexists. eexists. split; [vm_compute; reflexivity|].
    apply (proj2 conversions_round_trip [3; 1; 2] (Some GLOBAL) DimStack.initial).
    vm_compute. reflexivity.
Defined.

(** C3 as stated fails on an input of size 1: the name "x" of size 1 is
    resolved to the dim -1, the positional value has the shape (1), and the
    conversion back names no dim, because only the positions of size above 1
    are batch dims; the name is lost. *)
Lemma size_one_input_not_restored :
  let v := Funsor.mk [("x"%string, 1)] in
  exists msg1 s1 msg2 s2,
    NamedMessenger._pyro_to_data DimStack.request (to_data_call v None)
                                 DimStack.initial
    = Ok msg1 s1
    /\ positional_sizes msg1 = [(-1, 1)]
    /\ data_shape (positional_sizes msg1) = [1]
    /\ NamedMessenger._pyro_to_funsor DimStack.request
         (to_funsor_call (data_shape (positional_sizes msg1)) None) s1
       = Ok msg2 s2
    /\ named_sizes (data_shape (positional_sizes msg1)) msg2 = []
    /\ ~ (forall n sz,
             In (n, sz) (named_sizes (data_shape (positional_sizes msg1)) msg2)
             <-> In (n, sz) (Funsor.inputs v)).
Proof.
  intros v. eexists. eexists. eexists. eexists.
  split; [vm_compute; reflexivity|].
  split; [reflexivity|]. split; [reflexivity|].
  split; [vm_compute; reflexivity|].
  split; [reflexivity|].
  intros H. destruct (proj2 (H "x"%string 1)) as [].
  now left.
Qed.

(* ================================================================== *)
(** * Which dims a to-named conversion names *)
(* ================================================================== *)

Section AnyResolver.
Variable request : request_args -> DimStack.M (string * Z).

Lemma to_funsor_loop_keys ty dims :
  forall dtn dtn' s s',
    NamedMessenger.to_funsor_loop request ty dims dtn s = Ok dtn' s' ->
    forall d, In d (OrderedDict.keys dtn')
              <-> In d dims \/ In d (OrderedDict.keys dtn).
Proof.
  induction dims as [|d0 rest IH]; intros dtn dtn' s s';
    cbn [NamedMessenger.to_funsor_loop].
  - unfold ret. intros [= <- <-] d. simpl. tauto.
  - unfold bind.
    match goal with
    | |- context [request ?a s] => destruct (request a s) as [p s1|]; [|discriminate]
    end.
    intros Hrest d. rewrite (IH _ _ _ _ Hrest d).
    rewrite (keys_set_In _ _ Z.eqb Z.eqb_eq). simpl. intuition.
Qed.

(** Whatever the resolver, a to-named conversion that returns has named
    exactly the batch dims that the hook computed from the message. *)
Lemma to_funsor_names_batch_dims msg msg' s s' :
  NamedMessenger._pyro_to_funsor request msg s = Ok msg' s' ->
  forall d, In d (named_dims msg') <-> In d (NamedMessenger.msg_batch_dims msg).
Proof.
  unfold NamedMessenger._pyro_to_funsor.
  destruct (len (setdefault (ToFunsorMsg.dim_to_name msg) []) >? 0) eqn:Hlen;
    [destruct (FrozenSet.equal Z.eqb _ _) eqn:Heq; simpl; [|discriminate]|simpl];
    unfold bind, ret;
    (destruct (NamedMessenger.to_funsor_loop _ _ _ _ s) as [dtn s1|] eqn:Hl;
     [|discriminate]);
    intros [= <- <-] d; unfold named_dims; simpl;
    rewrite (to_funsor_loop_keys _ _ _ _ _ _ Hl d).
  - pose proof (proj1 (equal_same_elements _ Z.eqb Z.eqb_eq _ _) Heq d) as Hd.
    tauto.
  - assert (E : setdefault (ToFunsorMsg.dim_to_name msg) [] = []).
    { destruct (setdefault (ToFunsorMsg.dim_to_name msg) []) as [|e l];
        [reflexivity|].
      exfalso.
      assert (Hpos : (len (e :: l) >? 0) = true)
        by (apply len_pos_nonempty; discriminate).
      congruence. }
    rewrite E. simpl. tauto.
Qed.

End AnyResolver.

(* ================================================================== *)
(** * The conversion hooks over any resolver *)
(* ================================================================== *)

Section HooksOverAnyResolver.
Variable request : request_args -> DimStack.M (string * Z).

Lemma to_data_loop_entries ty names :
  forall ntd ntd' s s',
    NamedMessenger.to_data_loop request ty names ntd s = Ok ntd' s' ->
    (forall n, In n names ->
               exists d, OrderedDict.get String.eqb ntd' n = Some (PlainDim (Some d)))
    /\ (forall n, In n (OrderedDict.keys ntd')
                  <-> In n names \/ In n (OrderedDict.keys ntd))
    /\ (forall n, ~ In n names ->
                  OrderedDict.get String.eqb ntd' n = OrderedDict.get String.eqb ntd n).
Proof.
  induction names as [|n0 rest IH]; intros ntd ntd' s s';
    cbn [NamedMessenger.to_data_loop].
  - unfold ret. intros [= <- <-]. split; [intros n []|]. split; [|reflexivity].
    intros n. simpl. tauto.
  - unfold bind.
    match goal with
    | |- context [request ?a s] => destruct (request a s) as [p s1|]; [|discriminate]
    end.
    intros Hrest. destruct (IH _ _ _ _ Hrest) as [Hin [Hkeys Hout]].
    split; [|split].
    + intros n [<-|Hn]; [|now apply Hin].
      destruct (in_dec string_dec n0 rest) as [Hr|Hr]; [now apply Hin|].
      exists (snd p). rewrite (Hout n0 Hr).
      apply (get_set_same _ _ String.eqb String.eqb_eq).
    + intros n. rewrite (Hkeys n), (keys_set_In _ _ String.eqb String.eqb_eq).
      simpl. intuition.
    + intros n Hn. rewrite Hout by (intros H; apply Hn; now right).
      apply (get_set_other _ _ String.eqb String.eqb_eq).
      intros ->. apply Hn. now left.
Qed.

Lemma to_funsor_loop_entries ty dims :
  forall dtn dtn' s s',
    NamedMessenger.to_funsor_loop request ty dims dtn s = Ok dtn' s' ->
    (forall d, In d dims ->
               exists n, OrderedDict.get Z.eqb dtn' d = Some (PlainName (Some n)))
    /\ (forall d, ~ In d dims ->
                  OrderedDict.get Z.eqb dtn' d = OrderedDict.get Z.eqb dtn d).
Proof.
  induction dims as [|d0 rest IH]; intros dtn dtn' s s';
    cbn [NamedMessenger.to_funsor_loop].
  - unfold ret. intros [= <- <-]. split; [intros d []|reflexivity].
  - unfold bind.
    match goal with
    | |- context [request ?a s] => destruct (request a s) as [p s1|]; [|discriminate]
    end.
    intros Hrest. destruct (IH _ _ _ _ Hrest) as [Hin Hout].
    split.
    + intros d [<-|Hd]; [|now apply Hin].
      destruct (in_dec Z.eq_dec d0 rest) as [Hr|Hr]; [now apply Hin|].
      exists (fst p). rewrite (Hout d0 Hr).
      apply (get_set_same _ _ Z.eqb Z.eqb_eq).
    + intros d Hd. rewrite Hout by (intros H; apply Hd; now right).
      apply (get_set_other _ _ Z.eqb Z.eqb_eq).
      intros ->. apply Hd. now left.
Qed.

(** X1: whatever the resolver, a to-positional call that returns leaves the
    value in place, marks the message as handled, fixes the dim type (LOCAL
    when none was given), and carries a [name_to_dim] whose keys are exactly
    the batch names of the value, each with a plain integer dim. *)
Theorem to_data_resolves_every_name :
  forall msg msg' s s',
    NamedMessenger._pyro_to_data request msg s = Ok msg' s' ->
    ToDataMsg.args msg' = ToDataMsg.args msg
    /\ ToDataMsg.stop msg' = true
    /\ ToDataMsg.dim_type msg' = Some (setdefault (ToDataMsg.dim_type msg) LOCAL)
    /\ exists ntd,
        ToDataMsg.name_to_dim msg' = Some ntd
        /\ (forall n, In n (OrderedDict.keys ntd)
                      <-> In n (OrderedDict.keys (Funsor.inputs (ToDataMsg.args msg))))
        /\ (forall n, In n (OrderedDict.keys (Funsor.inputs (ToDataMsg.args msg))) ->
                      exists d, OrderedDict.get String.eqb ntd n
                                = Some (PlainDim (Some d))).
Proof.
  intros msg msg' s s'. unfold NamedMessenger._pyro_to_data.
  set (supplied := setdefault (ToDataMsg.name_to_dim msg) []).
  set (names := OrderedDict.keys (Funsor.inputs (ToDataMsg.args msg))).
  destruct (len supplied >? 0) eqn:Hlen;
    [destruct (FrozenSet.equal String.eqb names (OrderedDict.keys supplied)) eqn:Heq;
     simpl; [|discriminate]|simpl];
    unfold bind, ret;
    (destruct (NamedMessenger.to_data_loop _ _ _ _ s) as [ntd s1|] eqn:Hl;
     [|discriminate]);
    intros [= <- <-]; simpl;
    destruct (to_data_loop_entries _ _ _ _ _ _ Hl) as [Hin [Hkeys _]];
    repeat (split; [reflexivity|]);
    exists ntd; (split; [reflexivity|]); (split; [|exact Hin]);
    intros n; rewrite (Hkeys n).
  - pose proof (proj1 (equal_same_elements _ String.eqb String.eqb_eq _ _) Heq n).
    tauto.
  - assert (E : supplied = []).
    { destruct supplied as [|e l]; [reflexivity|]. exfalso.
      assert (Hpos : (len (e :: l) >? 0) = true)
        by (apply len_pos_nonempty; discriminate).
      congruence. }
    rewrite E. simpl. tauto.
Qed.

(** X2: whatever the resolver, a to-named call that returns leaves the raw
    value and the positional output in place, marks the message as handled,
    fixes the dim type, records the output among the keyword arguments when
    it was not positional, and carries a [dim_to_name] whose keys are
    exactly the batch dims, each with a plain name. *)
Theorem to_funsor_names_every_batch_dim :
  forall msg msg' s s',
    NamedMessenger._pyro_to_funsor request msg s = Ok msg' s' ->
    ToFunsorMsg.raw_value msg' = ToFunsorMsg.raw_value msg
    /\ ToFunsorMsg.output_arg msg' = ToFunsorMsg.output_arg msg
    /\ ToFunsorMsg.stop msg' = true
    /\ ToFunsorMsg.dim_type msg' = Some (setdefault (ToFunsorMsg.dim_type msg) LOCAL)
    /\ NamedMessenger.msg_output msg' = NamedMessenger.msg_output msg
    /\ (ToFunsorMsg.output_arg msg = None -> ToFunsorMsg.output msg' <> None)
    /\ exists dtn,
        ToFunsorMsg.dim_to_name msg' = Some dtn
        /\ (forall d, In d (OrderedDict.keys dtn)
                      <-> In d (NamedMessenger.msg_batch_dims msg))
        /\ (forall d, In d (NamedMessenger.msg_batch_dims msg) ->
                      exists n, OrderedDict.get Z.eqb dtn d
                                = Some (PlainName (Some n))).
Proof.
  intros msg msg' s s' Hrun.
  pose proof (to_funsor_names_batch_dims request _ _ _ _ Hrun) as Hkeys.
  revert Hrun. unfold NamedMessenger._pyro_to_funsor.
  destruct (_ && _); [discriminate|]. unfold bind, ret.
  destruct (NamedMessenger.to_funsor_loop _ _ _ _ s) as [dtn s1|] eqn:Hl;
    [|discriminate].
  intros [= <- <-]. unfold named_dims in Hkeys. simpl in Hkeys. simpl.
  destruct (to_funsor_loop_entries _ _ _ _ _ _ Hl) as [Hin _].
  repeat (split; [reflexivity|]).
  split.
  { unfold NamedMessenger.msg_output. simpl.
    destruct (ToFunsorMsg.output_arg msg); reflexivity. }
  split.
  { intros ->. discriminate. }
  exists dtn. split; [reflexivity|]. split; [exact Hkeys|exact Hin].
Qed.




End HooksOverAnyResolver.

Lemma to_data_resolves_every_name_witness :
  let msg := to_data_call (Funsor.mk [("a"%string, 2); ("b"%string, 3)]) None in
  exists msg' s',
    NamedMessenger._pyro_to_data DimStack.request msg DimStack.initial = Ok msg' s'
    /\ ToDataMsg.stop msg' = true
    /\ ToDataMsg.dim_type msg' = Some LOCAL.
Proof.
  intros msg. eexists _, _. split; [reflexivity|].
  split.
  - refine (proj1 (proj2 (to_data_resolves_every_name
                            DimStack.request msg _ DimStack.initial _ _))).
    reflexivity.
  - reflexivity.
Defined.

Lemma to_funsor_names_every_batch_dim_witness :
  let msg := to_funsor_call [2; 1; 3] None in
  exists msg' s',
    NamedMessenger._pyro_to_funsor DimStack.request msg DimStack.initial = Ok msg' s'
    /\ ToFunsorMsg.stop msg' = true
    /\ named_dims msg' = [-3; -1].
Proof.
  intros msg. eexists _, _. split; [reflexivity|].
  split.
  - refine (proj1 (proj2 (proj2 (to_funsor_names_every_batch_dim
                                   DimStack.request msg _ DimStack.initial _ _)))).
    reflexivity.
  - reflexivity.
Defined.


(* ================================================================== *)
(** * Validation of the supplied maps *)
(* ================================================================== *)

Section ValidationOverTotalResolver.
Variable request : request_args -> DimStack.M (string * Z).
Hypothesis request_total : total_resolver request.

Lemma to_data_loop_returns ty names :
  forall ntd s, exists ntd' s',
      NamedMessenger.to_data_loop request ty names ntd s = Ok ntd' s'.
Proof.
  induction names as [|n0 rest IH]; intros ntd s; cbn [NamedMessenger.to_data_loop].
  - unfold ret. eauto.
  - unfold bind.
    match goal with
    | |- context [request ?a s] => destruct (request_total a s) as (p & s1 & ->)
    end.
    apply IH.
Qed.

Lemma to_funsor_loop_returns ty dims :
  forall dtn s, exists dtn' s',
      NamedMessenger.to_funsor_loop request ty dims dtn s = Ok dtn' s'.
Proof.
  induction dims as [|d0 rest IH]; intros dtn s; cbn [NamedMessenger.to_funsor_loop].
  - unfold ret. eauto.
  - unfold bind.
    match goal with
    | |- context [request ?a s] => destruct (request_total a s) as (p & s1 & ->)
    end.
    apply IH.
Qed.

(** X4: with a resolver that always returns, a conversion returns exactly
    when the supplied map is empty or names the same set of axes as the
    value has; the order and the values of the supplied entries play no
    part in the check. *)
Theorem conversions_return_iff_fully_specified :
  (forall msg s,
      (exists msg' s', NamedMessenger._pyro_to_data request msg s = Ok msg' s')
      <-> (setdefault (ToDataMsg.name_to_dim msg) [] = []
           \/ forall n,
               In n (OrderedDict.keys (Funsor.inputs (ToDataMsg.args msg)))
               <-> In n (OrderedDict.keys (setdefault (ToDataMsg.name_to_dim msg) []))))
  /\ (forall msg s,
         (exists msg' s', NamedMessenger._pyro_to_funsor request msg s = Ok msg' s')
         <-> (setdefault (ToFunsorMsg.dim_to_name msg) [] = []
              \/ forall d, In d (NamedMessenger.msg_batch_dims msg)
                           <-> In d (named_dims msg))).
Proof.
  split; intros msg s.
  - unfold NamedMessenger._pyro_to_data.
    set (supplied := setdefault (ToDataMsg.name_to_dim msg) []).
    set (names := OrderedDict.keys (Funsor.inputs (ToDataMsg.args msg))).
    set (ty := setdefault (ToDataMsg.dim_type msg) LOCAL).
    pose proof (len_pos_nonempty supplied) as Hne.
    pose proof (equal_same_elements _ String.eqb String.eqb_eq names
                                    (OrderedDict.keys supplied)) as Hsame.
    destruct (to_data_loop_returns ty names supplied s) as (ntd' & s' & Hl).
    destruct (len supplied >? 0);
      destruct (FrozenSet.equal String.eqb names (OrderedDict.keys supplied));
      simpl; unfold bind, ret, raise; try rewrite Hl.
    + split; [intros _; right; now apply Hsame|eauto].
    + split; [intros (m & t & H); discriminate H|].
      intros [E|E].
      * exfalso. now apply (proj1 Hne).
      * apply Hsame in E. discriminate E.
    + split; [intros _; left|eauto].
      destruct supplied as [|e l]; [reflexivity|].
      assert (H : false = true) by (apply Hne; discriminate). discriminate H.
    + split; [intros _; left|eauto].
      destruct supplied as [|e l]; [reflexivity|].
      assert (H : false = true) by (apply Hne; discriminate). discriminate H.
  - unfold NamedMessenger._pyro_to_funsor, named_dims.
    set (supplied := setdefault (ToFunsorMsg.dim_to_name msg) []).
    set (dims := NamedMessenger.msg_batch_dims msg).
    set (ty := setdefault (ToFunsorMsg.dim_type msg) LOCAL).
    pose proof (len_pos_nonempty supplied) as Hne.
    pose proof (equal_same_elements _ Z.eqb Z.eqb_eq dims
                                    (OrderedDict.keys supplied)) as Hsame.
    destruct (to_funsor_loop_returns ty dims supplied s) as (dtn' & s' & Hl).
    destruct (len supplied >? 0);
      destruct (FrozenSet.equal Z.eqb dims (OrderedDict.keys supplied));
      simpl; unfold bind, ret, raise; try rewrite Hl.
    + split; [intros _; right; now apply Hsame|eauto].
    + split; [intros (m & t & H); discriminate H|].
      intros [E|E].
      * exfalso. now apply (proj1 Hne).
      * apply Hsame in E. discriminate E.
    + split; [intros _; left|eauto].
      destruct supplied as [|e l]; [reflexivity|].
      assert (H : false = true) by (apply Hne; discriminate). discriminate H.
    + split; [intros _; left|eauto].
      destruct supplied as [|e l]; [reflexivity|].
      assert (H : false = true) by (apply Hne; discriminate). discriminate H.
Qed.

End ValidationOverTotalResolver.

Lemma conversions_return_iff_fully_specified_witness :
  exists msg' s',
    NamedMessenger._pyro_to_data (fun _ s => Ok ("a"%string, -1) s)
      (ToDataMsg.mk (Funsor.mk [("a"%string, 2); ("b"%string, 3)])
                    (Some [("b"%string, PlainDim None); ("a"%string, PlainDim (Some (-1)))])
                    None false)
      DimStack.initial
    = Ok msg' s'.
Proof.
  refine (proj2 (proj1 (conversions_return_iff_fully_specified
                          (fun _ s => Ok ("a"%string, -1) s) _) _ _) _).
  - intros a s. eexists _, _. reflexivity.
  - right. intros n. simpl. tauto.
Defined.

(* ================================================================== *)
(** * Batch shapes and batch dims *)
(* ================================================================== *)

Lemma filter_none {A : Type} (f : A -> bool) (l : list A) :
  (forall x, In x l -> f x = false) -> filter f l = [].
Proof.
  induction l as [|a l IH]; intros H; [reflexivity|].
  simpl. rewrite (H a (or_introl eq_refl)). apply IH.
  intros x Hx. apply H. now right.
Qed.

Lemma py_index_In shape d :
  - len shape <= d < 0 -> In (py_index shape d) shape.
Proof.
  intros Hd. unfold py_index.
  destruct (d <? 0) eqn:E; [|apply Z.ltb_ge in E; lia].
  apply nth_In. unfold len in *. lia.
Qed.

Lemma range_sorted lo hi : StronglySorted Z.lt (range lo hi).
Proof.
  unfold range. generalize (Z.to_nat (hi - lo)) as n. intros n.
  generalize 0%nat as k. induction n as [|n IH]; intros k; simpl.
  - constructor.
  - constructor; [apply IH|].
    apply Forall_forall. intros x Hx.
    apply in_map_iff in Hx. destruct Hx as (i & <- & Hi).
    apply in_seq in Hi. lia.
Qed.

Lemma filter_sorted {A : Type} (R : A -> A -> Prop) (f : A -> bool) (l : list A) :
  StronglySorted R l -> StronglySorted R (filter f l).
Proof.
  induction 1 as [|a l Hs IH Hall]; simpl; [constructor|].
  destruct (f a); [|exact IH].
  constructor; [exact IH|].
  apply Forall_forall. intros x Hx. apply filter_In in Hx.
  rewrite Forall_forall in Hall. now apply Hall.
Qed.

(** X5: the batch dims that [_pyro_to_funsor] hands to the resolver are the
    negative positions of the batch shape whose size exceeds one, and they
    come in strictly increasing order: each such position once, the
    outermost first and the innermost last. *)
Theorem batch_dims_increasing :
  forall batch_shape,
    StronglySorted Z.lt (NamedMessenger.batch_dims_of batch_shape)
    /\ (forall d, In d (NamedMessenger.batch_dims_of batch_shape)
                  <-> - len batch_shape <= d <= -1 /\ 1 < py_index batch_shape d).
Proof.
  intros batch_shape. split.
  - unfold NamedMessenger.batch_dims_of. apply filter_sorted, range_sorted.
  - intros d. unfold NamedMessenger.batch_dims_of.
    rewrite filter_In, In_range, Z.gtb_lt. lia.
Qed.

(** X6: the batch shape of a value that only has a shape is a prefix of
    that shape.  With an output of at most as many axes as the value, the
    prefix drops exactly the output's axes.  With an output of more axes the
    slice bound is negative and counts from the end again: the prefix has
    [2 * len - event_dim] axes, and is empty only once the output has at
    least twice as many axes as the value.  A value that carries its own
    batch shape keeps it whatever the output. *)
Theorem batch_shape_is_a_prefix :
  forall full_shape output,
    let e := NamedMessenger.event_dim_of output in
    NamedMessenger.batch_shape_of (WithShape full_shape) e
    = firstn (Z.to_nat (if e <=? len full_shape
                        then len full_shape - e
                        else 2 * len full_shape - e)) full_shape
    /\ NamedMessenger.batch_shape_of Shapeless e = []
    /\ forall bs, NamedMessenger.batch_shape_of (WithBatchShape bs) e = bs.
Proof.
  intros full_shape output e.
  assert (He : 0 <= e).
  { unfold e, NamedMessenger.event_dim_of, len. destruct output; lia. }
  split; [|split; [|reflexivity]].
  - unfold NamedMessenger.batch_shape_of, py_slice_to.
    destruct (e <=? len full_shape) eqn:Hle.
    + apply Z.leb_le in Hle.
      destruct (len full_shape - e <? 0) eqn:Hneg;
        [apply Z.ltb_lt in Hneg; lia|].
      f_equal. lia.
    + apply Z.leb_gt in Hle.
      destruct (len full_shape - e <? 0) eqn:Hneg;
        [|apply Z.ltb_ge in Hneg; lia].
      f_equal. lia.
  - unfold NamedMessenger.batch_shape_of, py_slice_to.
    now destruct (Z.to_nat _).
Qed.

(** X7: a batch dim is an axis of the value counted from the end of the
    batch shape, so, when the output has at most as many axes as the value,
    batch dim [d] is axis [d - event_dim] of the full shape: it has the same
    size, and it never lies among the last [event_dim] axes. *)
Theorem batch_dim_is_axis_before_event_dims :
  forall full_shape output d,
    let e := NamedMessenger.event_dim_of output in
    e <= len full_shape ->
    In d (NamedMessenger.batch_dims_of
            (NamedMessenger.batch_shape_of (WithShape full_shape) e)) ->
    - len full_shape <= d - e < - e
    /\ py_index (NamedMessenger.batch_shape_of (WithShape full_shape) e) d
       = py_index full_shape (d - e)
    /\ 1 < py_index full_shape (d - e).
Proof.
  intros full_shape output d e Hle Hin.
  assert (He : 0 <= e).
  { unfold e, NamedMessenger.event_dim_of, len. destruct output; lia. }
  assert (Hbs : NamedMessenger.batch_shape_of (WithShape full_shape) e
                = firstn (Z.to_nat (len full_shape - e)) full_shape).
  { unfold NamedMessenger.batch_shape_of, py_slice_to.
    destruct (len full_shape - e <? 0) eqn:Hneg; [apply Z.ltb_lt in Hneg; lia|].
    f_equal. lia. }
  revert Hin. rewrite Hbs.
  intros Hin. apply batch_dims_In in Hin. destruct Hin as [Hd Hsz].
  assert (Hlen : len (firstn (Z.to_nat (len full_shape - e)) full_shape)
                 = len full_shape - e).
  { unfold len. rewrite length_firstn. unfold len in *. lia. }
  rewrite Hlen in Hd.
  assert (Hidx : py_index (firstn (Z.to_nat (len full_shape - e)) full_shape) d
                 = py_index full_shape (d - e)).
  { unfold py_index. rewrite Hlen.
    destruct (d <? 0) eqn:E1; [|apply Z.ltb_ge in E1; lia].
    destruct (d - e <? 0) eqn:E2; [|apply Z.ltb_ge in E2; lia].
    replace (len full_shape + (d - e)) with (len full_shape - e + d) by lia.
    rewrite nth_firstn.
    destruct (Nat.ltb_spec (Z.to_nat (len full_shape - e + d))
                           (Z.to_nat (len full_shape - e))); [reflexivity|lia]. }
  split; [lia|]. split; [exact Hidx|]. now rewrite <- Hidx.
Qed.

Lemma batch_dim_is_axis_before_event_dims_witness :
  1 < py_index [2; 3; 4] (-1 - 1).
Proof.
  refine (proj2 (proj2 (batch_dim_is_axis_before_event_dims
                          [2; 3; 4] (Some (Domain.mk [4])) (-1) _ _))).
  - cbv. discriminate.
  - cbv. tauto.
Defined.

(* ================================================================== *)
(** * Values without batch axes, and requests that carry their own type *)
(* ================================================================== *)

Section EdgesOverAnyResolver.
Variable request : request_args -> DimStack.M (string * Z).

(** X8: a value without batch axes is converted without a word to the
    resolver.  A funsor with no inputs, and a raw value that has no shape or
    whose batch sizes are all at most one, come back with an empty map, the
    dimension stack untouched, whatever resolver is installed. *)
Theorem conversions_without_batch_axes :
  (forall msg s,
      Funsor.inputs (ToDataMsg.args msg) = [] ->
      setdefault (ToDataMsg.name_to_dim msg) [] = [] ->
      NamedMessenger._pyro_to_data request msg s
      = Ok (ToDataMsg.mk (ToDataMsg.args msg) (Some [])
              (Some (setdefault (ToDataMsg.dim_type msg) LOCAL)) true) s)
  /\ (forall msg s,
         Forall (fun size => size <= 1)
                (NamedMessenger.batch_shape_of
                   (ToFunsorMsg.raw_value msg)
                   (NamedMessenger.event_dim_of (NamedMessenger.msg_output msg))) ->
         setdefault (ToFunsorMsg.dim_to_name msg) [] = [] ->
         exists msg',
           NamedMessenger._pyro_to_funsor request msg s = Ok msg' s
           /\ ToFunsorMsg.dim_to_name msg' = Some []
           /\ ToFunsorMsg.raw_value msg' = ToFunsorMsg.raw_value msg).
Proof.
  split; intros msg s.
  - intros Hin Hmap. unfold NamedMessenger._pyro_to_data.
    rewrite Hmap, Hin. reflexivity.
  - intros Hall Hmap.
    assert (Hdims : NamedMessenger.msg_batch_dims msg = []).
    { unfold NamedMessenger.msg_batch_dims, NamedMessenger.batch_dims_of.
      apply filter_none. intros d Hd. apply In_range in Hd.
      rewrite Forall_forall in Hall.
      assert (Hsz : py_index _ d <= 1) by (apply Hall, py_index_In; lia).
      destruct (_ >? 1) eqn:E; [apply Z.gtb_lt in E; lia|reflexivity]. }
    unfold NamedMessenger._pyro_to_funsor. rewrite Hmap, Hdims.
    eexists. split; [reflexivity|]. split; reflexivity.
Qed.

(** X9: an axis of size one, or a position outside the batch shape, cannot
    be named: a [dim_to_name] with an entry for a dim that is not a batch
    dim of the value is rejected with the partial-specification error
    before the dimension stack is touched, also when every batch dim of the
    value is named as well. *)
Theorem naming_a_non_batch_dim_rejected :
  forall msg s d,
    let batch_shape :=
        NamedMessenger.batch_shape_of
          (ToFunsorMsg.raw_value msg)
          (NamedMessenger.event_dim_of (NamedMessenger.msg_output msg)) in
    In d (named_dims msg) ->
    d < - len batch_shape \/ 0 <= d \/ py_index batch_shape d <= 1 ->
    NamedMessenger._pyro_to_funsor request msg s
    = Raise NamedMessenger.partial_dim_to_name s.
Proof.
  intros msg s d batch_shape Hnamed Hnot.
  apply to_funsor_rejects.
  - intros E. rewrite E in Hnamed. destruct Hnamed.
  - intros Hall. apply Hall in Hnamed.
    unfold NamedMessenger.msg_batch_dims in Hnamed.
    apply batch_dims_In in Hnamed. fold batch_shape in Hnamed. lia.
Qed.

Lemma to_data_loop_wrapped ty1 ty2 names :
  forall ntd s,
    NoDup names ->
    (forall n, In n names ->
               exists r, OrderedDict.get String.eqb ntd n = Some (WrappedDim r)) ->
    NamedMessenger.to_data_loop request ty1 names ntd s
    = NamedMessenger.to_data_loop request ty2 names ntd s.
Proof.
  induction names as [|n0 rest IH]; intros ntd s Hnd Hw;
    cbn [NamedMessenger.to_data_loop]; [reflexivity|].
  destruct (Hw n0 (or_introl eq_refl)) as [r ->].
  unfold bind. destruct (request (ByName n0 r) s) as [p s1|]; [|reflexivity].
  inversion Hnd as [|? ? Hnotin Hnd']; subst.
  apply IH; [exact Hnd'|].
  intros n Hn. destruct (Hw n (or_intror Hn)) as [r' Hr']. exists r'.
  rewrite (get_set_other _ _ String.eqb String.eqb_eq); [exact Hr'|].
  intros ->. contradiction.
Qed.

Lemma to_funsor_loop_wrapped ty1 ty2 dims :
  forall dtn s,
    NoDup dims ->
    (forall d, In d dims ->
               exists r, OrderedDict.get Z.eqb dtn d = Some (WrappedName r)) ->
    NamedMessenger.to_funsor_loop request ty1 dims dtn s
    = NamedMessenger.to_funsor_loop request ty2 dims dtn s.
Proof.
  induction dims as [|d0 rest IH]; intros dtn s Hnd Hw;
    cbn [NamedMessenger.to_funsor_loop]; [reflexivity|].
  destruct (Hw d0 (or_introl eq_refl)) as [r ->].
  unfold bind. destruct (request (ByDim r d0) s) as [p s1|]; [|reflexivity].
  inversion Hnd as [|? ? Hnotin Hnd']; subst.
  apply IH; [exact Hnd'|].
  intros d Hd. destruct (Hw d (or_intror Hd)) as [r' Hr']. exists r'.
  rewrite (get_set_other _ _ Z.eqb Z.eqb_eq); [exact Hr'|].
  intros ->. contradiction.
Qed.

(** X10: the [dim_type] of a message is only a default.  When every batch
    axis comes with a request object of its own, the map that a conversion
    produces, the exception it raises and the state it leaves are the same
    whatever [dim_type] the message carries: the hooks pass the caller's
    request objects on as they are. *)
Theorem own_requests_ignore_message_dim_type :
  (forall msg ty s,
      NoDup (OrderedDict.keys (Funsor.inputs (ToDataMsg.args msg))) ->
      (forall n, In n (OrderedDict.keys (Funsor.inputs (ToDataMsg.args msg))) ->
                 exists r, OrderedDict.get String.eqb
                             (setdefault (ToDataMsg.name_to_dim msg) []) n
                           = Some (WrappedDim r)) ->
      map_outcome ToDataMsg.name_to_dim
        (NamedMessenger._pyro_to_data request
           (ToDataMsg.mk (ToDataMsg.args msg) (ToDataMsg.name_to_dim msg) ty
                         (ToDataMsg.stop msg)) s)
      = map_outcome ToDataMsg.name_to_dim
          (NamedMessenger._pyro_to_data request msg s))
  /\ (forall msg ty s,
         (forall d, In d (NamedMessenger.msg_batch_dims msg) ->
                    exists r, OrderedDict.get Z.eqb
                                (setdefault (ToFunsorMsg.dim_to_name msg) []) d
                              = Some (WrappedName r)) ->
         map_outcome ToFunsorMsg.dim_to_name
           (NamedMessenger._pyro_to_funsor request
              (ToFunsorMsg.mk (ToFunsorMsg.raw_value msg) (ToFunsorMsg.output_arg msg)
                              (ToFunsorMsg.output msg) (ToFunsorMsg.dim_to_name msg)
                              ty (ToFunsorMsg.value msg) (ToFunsorMsg.stop msg)) s)
         = map_outcome ToFunsorMsg.dim_to_name
             (NamedMessenger._pyro_to_funsor request msg s)).
Proof.
  split; intros msg ty s.
  - intros Hnd Hw. unfold NamedMessenger._pyro_to_data. simpl.
    destruct (_ && _); [reflexivity|]. unfold bind, ret.
    rewrite (to_data_loop_wrapped (setdefault ty LOCAL)
               (setdefault (ToDataMsg.dim_type msg) LOCAL) _ _ s Hnd Hw).
    now destruct (NamedMessenger.to_data_loop _ _ _ _ s).
  - intros Hw. unfold NamedMessenger._pyro_to_funsor.
    change (NamedMessenger.msg_batch_dims (ToFunsorMsg.mk _ _ _ _ _ _ _))
      with (NamedMessenger.msg_batch_dims msg).
    change (NamedMessenger.msg_output (ToFunsorMsg.mk _ _ _ _ _ _ _))
      with (NamedMessenger.msg_output msg).
    cbn [ToFunsorMsg.raw_value ToFunsorMsg.output_arg ToFunsorMsg.output
         ToFunsorMsg.dim_to_name ToFunsorMsg.dim_type ToFunsorMsg.value
         ToFunsorMsg.stop].
    destruct (_ && _); [reflexivity|]. unfold bind, ret.
    rewrite (to_funsor_loop_wrapped (setdefault ty LOCAL)
               (setdefault (ToFunsorMsg.dim_type msg) LOCAL)
               (NamedMessenger.msg_batch_dims msg) _ s
               (batch_dims_NoDup _) Hw).
    now destruct (NamedMessenger.to_funsor_loop _ _ _ _ s).
Qed.

End EdgesOverAnyResolver.

Lemma conversions_without_batch_axes_witness :
  exists msg',
    NamedMessenger._pyro_to_funsor DimStack.request
      (ToFunsorMsg.mk (WithShape [1; 1; 5]) (Some (Some (Domain.mk [5])))
                      None None None None false)
      DimStack.initial
    = Ok msg' DimStack.initial
    /\ ToFunsorMsg.dim_to_name msg' = Some []
    /\ ToFunsorMsg.raw_value msg' = WithShape [1; 1; 5].
Proof.
  refine (proj2 (conversions_without_batch_axes DimStack.request) _ _ _ _).
  - cbv. repeat constructor; discriminate.
  - reflexivity.
Defined.

Lemma naming_a_non_batch_dim_rejected_witness :
  NamedMessenger._pyro_to_funsor DimStack.request
    (ToFunsorMsg.mk (WithShape [1; 3]) (Some None) None
                    (Some [(-2, PlainName (Some "x"%string));
                           (-1, PlainName (Some "y"%string))])
                    None None false)
    DimStack.initial
  = Raise NamedMessenger.partial_dim_to_name DimStack.initial.
Proof.
  refine (naming_a_non_batch_dim_rejected DimStack.request _ _ (-2) _ _).
  - cbv. tauto.
  - right. right. cbv. discriminate.
Defined.

Lemma own_requests_ignore_message_dim_type_witness :
  map_outcome ToDataMsg.name_to_dim
    (NamedMessenger._pyro_to_data DimStack.request
       (ToDataMsg.mk (Funsor.mk [("a"%string, 2)])
                     (Some [("a"%string, WrappedDim (DimRequest.mk None GLOBAL))])
                     (Some VISIBLE) false)
       DimStack.initial)
  = map_outcome ToDataMsg.name_to_dim
      (NamedMessenger._pyro_to_data DimStack.request
         (ToDataMsg.mk (Funsor.mk [("a"%string, 2)])
                       (Some [("a"%string, WrappedDim (DimRequest.mk None GLOBAL))])
                       None false)
         DimStack.initial).
Proof.
  refine (proj1 (own_requests_ignore_message_dim_type DimStack.request)
                (ToDataMsg.mk (Funsor.mk [("a"%string, 2)])
                   (Some [("a"%string, WrappedDim (DimRequest.mk None GLOBAL))])
                   None false)
                (Some VISIBLE) DimStack.initial _ _).
  - simpl. repeat constructor. intros [].
  - intros n [<-|[]]. eexists. reflexivity.
Defined.

(* ================================================================== *)
(** * Scopes inside the scope of another owner *)
(* ================================================================== *)

Lemma cleanup_enter_inside h s o :
  DimStack.outermost s = Some o ->
  DimStackCleanupMessenger.__enter__ h s
  = Ok (DimStackCleanupMessenger.mk (DimStackCleanupMessenger.self h)
          (DimStackCleanupMessenger._ref_count h + 1)
          (DimStackCleanupMessenger._saved_dims h)) s.
Proof.
  intros Ho. apply cleanup_enter_passive.
  unfold DimStackCleanupMessenger.outermost_is_None. rewrite Ho.
  apply andb_false_r.
Qed.

Lemma cleanup_exit_inside h s o :
  DimStack.outermost s = Some o ->
  o <> DimStackCleanupMessenger.self h ->
  DimStackCleanupMessenger.__exit__ h s
  = Ok (DimStackCleanupMessenger.mk (DimStackCleanupMessenger.self h)
          (DimStackCleanupMessenger._ref_count h - 1)
          (DimStackCleanupMessenger._saved_dims h)) s.
Proof.
  intros Ho Hneq. apply cleanup_exit_passive.
  unfold DimStackCleanupMessenger.is_outermost. rewrite Ho.
  apply Nat.eqb_neq in Hneq. rewrite Hneq. apply andb_false_r.
Qed.


Lemma with_frames_same s : DimStack.with_frames s (DimStack.frames s) = s.
Proof. now destruct s. Qed.

Lemma local_enter_inside h s o :
  DimStack.outermost s = Some o ->
  LocalNamedMessenger.__enter__ h s
  = let '(frame, saved) :=
        match LocalNamedMessenger.keep h, rev (LocalNamedMessenger._saved_frames h) with
        | true, f :: r => (f, rev r)
        | _, _ => (StackFrame.mk [] [] (LocalNamedMessenger.history h)
                                 (LocalNamedMessenger.keep h),
                   LocalNamedMessenger._saved_frames h)
        end in
    Ok (LocalNamedMessenger.mk
          (DimStackCleanupMessenger.mk
             (DimStackCleanupMessenger.self (LocalNamedMessenger.base h))
             (DimStackCleanupMessenger._ref_count (LocalNamedMessenger.base h) + 1)
             (DimStackCleanupMessenger._saved_dims (LocalNamedMessenger.base h)))
          (LocalNamedMessenger.history h) (LocalNamedMessenger.keep h) saved)
       (DimStack.with_frames s (DimStack.frames s ++ [frame])).
Proof.
  intros Ho. unfold LocalNamedMessenger.__enter__.
  destruct (match LocalNamedMessenger.keep h,
                  rev (LocalNamedMessenger._saved_frames h) with
            | true, f :: r => (f, rev r)
            | _, _ => _
            end) as [frame saved].
  unfold bind, ret, DimStack.push.
  now rewrite (cleanup_enter_inside _ _ o).
Qed.

Lemma local_exit_passive h s below f :
  (DimStackCleanupMessenger._ref_count (LocalNamedMessenger.base h) =? 1)
  && DimStackCleanupMessenger.is_outermost (LocalNamedMessenger.base h) s = false ->
  DimStack.frames s = below ++ [f] ->
  LocalNamedMessenger.__exit__ h s
  = Ok (LocalNamedMessenger.mk
          (DimStackCleanupMessenger.mk
             (DimStackCleanupMessenger.self (LocalNamedMessenger.base h))
             (DimStackCleanupMessenger._ref_count (LocalNamedMessenger.base h) - 1)
             (DimStackCleanupMessenger._saved_dims (LocalNamedMessenger.base h)))
          (LocalNamedMessenger.history h) (LocalNamedMessenger.keep h)
          (if LocalNamedMessenger.keep h
           then LocalNamedMessenger._saved_frames h ++ [f]
           else LocalNamedMessenger._saved_frames h))
       (DimStack.with_frames s below).
Proof.
  intros Hg Hfr. unfold LocalNamedMessenger.__exit__.
  destruct (LocalNamedMessenger.keep h); unfold bind, ret;
    rewrite (pop_last below f s Hfr);
    now rewrite cleanup_exit_passive.
Qed.

Lemma exit_times_passive fs :
  forall h s below,
    len fs < DimStackCleanupMessenger._ref_count (LocalNamedMessenger.base h)
    \/ DimStackCleanupMessenger.is_outermost (LocalNamedMessenger.base h) s = false ->
    DimStack.frames s = below ++ fs ->
    exit_times (List.length fs) h s
    = Ok (LocalNamedMessenger.mk
            (DimStackCleanupMessenger.mk
               (DimStackCleanupMessenger.self (LocalNamedMessenger.base h))
               (DimStackCleanupMessenger._ref_count (LocalNamedMessenger.base h)
                - len fs)
               (DimStackCleanupMessenger._saved_dims (LocalNamedMessenger.base h)))
            (LocalNamedMessenger.history h) (LocalNamedMessenger.keep h)
            (if LocalNamedMessenger.keep h
             then LocalNamedMessenger._saved_frames h ++ rev fs
             else LocalNamedMessenger._saved_frames h))
         (DimStack.with_frames s below).
Proof.
  induction fs as [|f fs IH] using rev_ind; intros h s below Hg Hfr.
  - simpl. unfold ret. rewrite app_nil_r in Hfr. rewrite <- Hfr, with_frames_same.
    rewrite app_nil_r, Z.sub_0_r.
    destruct h as [[i r sd] hi k sf]. simpl. now destruct k.
  - assert (Hlen : len (fs ++ [f]) = len fs + 1)
      by (unfold len; rewrite length_app; simpl; lia).
    rewrite Hlen in *.
    assert (Hpos : 0 <= len fs) by (unfold len; lia).
    rewrite length_app, Nat.add_1_r. cbn [exit_times]. unfold bind.
    rewrite (local_exit_passive h s (below ++ fs) f);
      [|destruct Hg as [Hg|Hg];
        [replace (_ =? 1) with false; [reflexivity|symmetry; apply Z.eqb_neq; lia]
        |rewrite Hg; apply andb_false_r]
      |now rewrite <- app_assoc].
    rewrite (IH _ _ below);
      [|destruct Hg as [Hg|Hg]; [left; simpl; lia|right; exact Hg]|reflexivity].
    cbn [LocalNamedMessenger.base LocalNamedMessenger.history
         LocalNamedMessenger.keep LocalNamedMessenger._saved_frames
         DimStackCleanupMessenger.self DimStackCleanupMessenger._ref_count
         DimStackCleanupMessenger._saved_dims].
    rewrite rev_unit.
    f_equal. f_equal.
    + f_equal. lia.
    + destruct (LocalNamedMessenger.keep h); [|reflexivity].
      now rewrite <- app_assoc.
Qed.

Lemma exit_times_inside o fs :
  forall h s below,
    DimStack.outermost s = Some o ->
    o <> DimStackCleanupMessenger.self (LocalNamedMessenger.base h) ->
    DimStack.frames s = below ++ fs ->
    exit_times (List.length fs) h s
    = Ok (LocalNamedMessenger.mk
            (DimStackCleanupMessenger.mk
               (DimStackCleanupMessenger.self (LocalNamedMessenger.base h))
               (DimStackCleanupMessenger._ref_count (LocalNamedMessenger.base h)
                - len fs)
               (DimStackCleanupMessenger._saved_dims (LocalNamedMessenger.base h)))
            (LocalNamedMessenger.history h) (LocalNamedMessenger.keep h)
            (if LocalNamedMessenger.keep h
             then LocalNamedMessenger._saved_frames h ++ rev fs
             else LocalNamedMessenger._saved_frames h))
         (DimStack.with_frames s below).
Proof.
  intros h s below Ho Hneq Hfr. apply exit_times_passive; [|exact Hfr].
  right. unfold DimStackCleanupMessenger.is_outermost. rewrite Ho.
  now apply Nat.eqb_neq.
Qed.

Lemma enter_times_replays o fs :
  forall h s older,
    DimStack.outermost s = Some o ->
    LocalNamedMessenger.keep h = true ->
    LocalNamedMessenger._saved_frames h = older ++ rev fs ->
    enter_times (List.length fs) h s
    = Ok (LocalNamedMessenger.mk
            (DimStackCleanupMessenger.mk
               (DimStackCleanupMessenger.self (LocalNamedMessenger.base h))
               (DimStackCleanupMessenger._ref_count (LocalNamedMessenger.base h)
                + len fs)
               (DimStackCleanupMessenger._saved_dims (LocalNamedMessenger.base h)))
            (LocalNamedMessenger.history h) true older)
         (DimStack.with_frames s (DimStack.frames s ++ fs)).
Proof.
  induction fs as [|f fs IH]; intros h s older Ho Hk Hsaved.
  - simpl in *. unfold ret. rewrite !app_nil_r in *. rewrite with_frames_same, Z.add_0_r.
    destruct h as [[i r sd] hi k sf]. simpl in *. now subst.
  - cbn [enter_times List.length]. unfold bind.
    rewrite (local_enter_inside h s o Ho), Hk, Hsaved.
    simpl rev. rewrite app_assoc, rev_unit, rev_involutive.
    rewrite (IH _ _ older); [|exact Ho|reflexivity|reflexivity].
    cbn [LocalNamedMessenger.base LocalNamedMessenger.history
         LocalNamedMessenger.keep LocalNamedMessenger._saved_frames
         DimStackCleanupMessenger.self DimStackCleanupMessenger._ref_count
         DimStackCleanupMessenger._saved_dims].
    unfold DimStack.with_frames. cbn [DimStack.frames DimStack.global_frame
      DimStack.outermost DimStack.iter_frame DimStack.first_available_dim].
    rewrite <- app_assoc. simpl app.
    f_equal. f_equal. f_equal. unfold len. simpl List.length. lia.
Qed.

Lemma enter_times_fresh o n :
  forall h s,
    DimStack.outermost s = Some o ->
    LocalNamedMessenger.keep h = false \/ LocalNamedMessenger._saved_frames h = [] ->
    enter_times n h s
    = Ok (LocalNamedMessenger.mk
            (DimStackCleanupMessenger.mk
               (DimStackCleanupMessenger.self (LocalNamedMessenger.base h))
               (DimStackCleanupMessenger._ref_count (LocalNamedMessenger.base h)
                + Z.of_nat n)
               (DimStackCleanupMessenger._saved_dims (LocalNamedMessenger.base h)))
            (LocalNamedMessenger.history h) (LocalNamedMessenger.keep h)
            (LocalNamedMessenger._saved_frames h))
         (DimStack.with_frames s
            (DimStack.frames s
               ++ repeat (StackFrame.mk [] [] (LocalNamedMessenger.history h)
                                        (LocalNamedMessenger.keep h)) n)).
Proof.
  induction n as [|n IH]; intros h s Ho Hk.
  - simpl. unfold ret. rewrite app_nil_r, with_frames_same, Z.add_0_r.
    now destruct h as [[i r sd] hi k sf].
  - cbn [enter_times]. unfold bind.
    rewrite (local_enter_inside h s o Ho).
    assert (E : match LocalNamedMessenger.keep h,
                      rev (LocalNamedMessenger._saved_frames h) with
                | true, f :: r => (f, rev r)
                | _, _ => (StackFrame.mk [] [] (LocalNamedMessenger.history h)
                                          (LocalNamedMessenger.keep h),
                           LocalNamedMessenger._saved_frames h)
                end
                = (StackFrame.mk [] [] (LocalNamedMessenger.history h)
                                 (LocalNamedMessenger.keep h),
                   LocalNamedMessenger._saved_frames h)).
    { destruct Hk as [->| ->]; [reflexivity|].
      now destruct (LocalNamedMessenger.keep h). }
    rewrite E.
    rewrite IH; [|exact Ho|exact Hk].
    cbn [LocalNamedMessenger.base LocalNamedMessenger.history
         LocalNamedMessenger.keep LocalNamedMessenger._saved_frames
         DimStackCleanupMessenger.self DimStackCleanupMessenger._ref_count
         DimStackCleanupMessenger._saved_dims].
    unfold DimStack.with_frames. cbn [DimStack.frames DimStack.global_frame
      DimStack.outermost DimStack.iter_frame DimStack.first_available_dim].
    rewrite <- app_assoc. simpl app. simpl repeat.
    f_equal. f_equal. f_equal. lia.
Qed.

Lemma enter_times_add a b :
  forall h s,
    enter_times (a + b) h s = (h1 <- enter_times a h ;; enter_times b h1) s.
Proof.
  induction a as [|a IH]; intros h s; [reflexivity|].
  cbn [Nat.add enter_times]. unfold bind.
  destruct (LocalNamedMessenger.__enter__ h s) as [h1 s1|]; [|reflexivity].
  rewrite IH. reflexivity.
Qed.

Lemma exit_times_add a b :
  forall h s,
    exit_times (a + b) h s = (h1 <- exit_times a h ;; exit_times b h1) s.
Proof.
  induction a as [|a IH]; intros h s; [reflexivity|].
  cbn [Nat.add exit_times]. unfold bind.
  destruct (LocalNamedMessenger.__exit__ h s) as [h1 s1|]; [|reflexivity].
  rewrite IH. reflexivity.
Qed.

(** X11: a loop over a handler with [keep=True] can be replayed as a whole.
    Inside the scope of another owner, when the loop ends the exit stack
    leaves the handler once for every step: the frames of the steps come off
    the stack, innermost first, into the handler's archive, and the frames
    beneath stay.  Entering the handler as many times again pushes the same
    frames back in the order of the first loop, and brings both the
    dimension stack and the handler back to what they were. *)
Theorem kept_loop_replays :
  forall h s o below fs,
    LocalNamedMessenger.keep h = true ->
    DimStack.outermost s = Some o ->
    o <> DimStackCleanupMessenger.self (LocalNamedMessenger.base h) ->
    DimStack.frames s = below ++ fs ->
    exists h1 s1,
      exit_times (List.length fs) h s = Ok h1 s1
      /\ DimStack.frames s1 = below
      /\ LocalNamedMessenger._saved_frames h1
         = LocalNamedMessenger._saved_frames h ++ rev fs
      /\ enter_times (List.length fs) h1 s1 = Ok h s.
Proof.
  intros h s o below fs Hk Ho Hneq Hfr.
  rewrite (exit_times_inside o fs h s below Ho Hneq Hfr), Hk.
  eexists _, _. split; [reflexivity|]. split; [reflexivity|].
  split; [reflexivity|].
  rewrite (enter_times_replays o fs _ _ (LocalNamedMessenger._saved_frames h));
    [|exact Ho|reflexivity|reflexivity].
  cbn [LocalNamedMessenger.base LocalNamedMessenger.history
       LocalNamedMessenger.keep LocalNamedMessenger._saved_frames
       DimStackCleanupMessenger.self DimStackCleanupMessenger._ref_count
       DimStackCleanupMessenger._saved_dims].
  f_equal.
  - destruct h as [[i r sd] hi k sf]. simpl in *. subst k.
    f_equal. f_equal. lia.
  - destruct s as [fr g om it c]. simpl in *. now subst fr.
Qed.

Lemma kept_loop_replays_witness :
  let f1 := StackFrame.mk [("i"%string, -1)] [(-1, "i"%string)] 1 true in
  let f2 := StackFrame.mk [("j"%string, -2)] [(-2, "j"%string)] 1 true in
  let h := LocalNamedMessenger.mk (DimStackCleanupMessenger.mk 2 2 []) 1 true [] in
  let s := DimStack.mk [f1; f2] (StackFrame.mk [] [] 0 false) (Some 1%nat) None (-1) in
  exists h1 s1,
    exit_times 2 h s = Ok h1 s1
    /\ DimStack.frames s1 = []
    /\ LocalNamedMessenger._saved_frames h1 = [f2; f1]
    /\ enter_times 2 h1 s1 = Ok h s.
Proof.
  intros f1 f2 h s.
  refine (kept_loop_replays h s 1%nat [] [f1; f2] eq_refl eq_refl _ eq_refl).
  discriminate.
Defined.

(** X12: a loop over a handler with [keep=False] leaves nothing behind.
    Inside the scope of another owner, [n] steps push [n] empty frames with
    the handler's history, one on each entry, re-entrant or not; the exits
    at the end of the loop take them off again and bring both the dimension
    stack and the handler back to what they were. *)
Theorem unkept_loop_leaves_nothing :
  forall n h s o,
    LocalNamedMessenger.keep h = false ->
    DimStack.outermost s = Some o ->
    o <> DimStackCleanupMessenger.self (LocalNamedMessenger.base h) ->
    exists h1 s1,
      enter_times n h s = Ok h1 s1
      /\ DimStack.frames s1
         = DimStack.frames s
             ++ repeat (StackFrame.mk [] [] (LocalNamedMessenger.history h) false) n
      /\ LocalNamedMessenger._saved_frames h1 = LocalNamedMessenger._saved_frames h
      /\ exit_times n h1 s1 = Ok h s.
Proof.
  intros n h s o Hk Ho Hneq.
  rewrite (enter_times_fresh o n h s Ho (or_introl Hk)), Hk.
  eexists _, _. split; [reflexivity|]. split; [reflexivity|].
  split; [reflexivity|].
  match goal with
  | |- exit_times n ?h1 ?s1 = _ =>
      pose proof (exit_times_inside o
                    (repeat (StackFrame.mk [] [] (LocalNamedMessenger.history h) false) n)
                    h1 s1 (DimStack.frames s) Ho Hneq eq_refl) as Hexit
  end.
  rewrite repeat_length in Hexit. rewrite Hexit.
  cbn [LocalNamedMessenger.base LocalNamedMessenger.history
       LocalNamedMessenger.keep LocalNamedMessenger._saved_frames
       DimStackCleanupMessenger.self DimStackCleanupMessenger._ref_count
       DimStackCleanupMessenger._saved_dims].
  f_equal.
  - destruct h as [[i r sd] hi k sf]. simpl in *. subst k.
    unfold len. rewrite repeat_length. f_equal. f_equal. lia.
  - now destruct s.
Qed.

Lemma unkept_loop_leaves_nothing_witness :
  let h := LocalNamedMessenger.__init__ 2 1 false in
  let s := DimStack.mk [] (StackFrame.mk [] [] 0 false) (Some 1%nat) None (-1) in
  exists h1 s1,
    enter_times 3 h s = Ok h1 s1
    /\ DimStack.frames s1 = repeat (StackFrame.mk [] [] 1 false) 3
    /\ LocalNamedMessenger._saved_frames h1 = []
    /\ exit_times 3 h1 s1 = Ok h s.
Proof.
  intros h s.
  refine (unkept_loop_leaves_nothing 3 h s 1%nat eq_refl eq_refl _).
  discriminate.
Defined.

(** X18: an archive that runs out is followed by empty frames.  A handler
    with [keep=True] that is entered more often than it has frames in its
    archive replays the archived frames first, the one archived last coming
    first, and from then on pushes empty frames that carry its history and
    [keep=True]; the archive ends up empty. *)
Theorem kept_archive_runs_out :
  forall fs m h s o,
    LocalNamedMessenger.keep h = true ->
    LocalNamedMessenger._saved_frames h = rev fs ->
    DimStack.outermost s = Some o ->
    exists h1,
      enter_times (List.length fs + m) h s
      = Ok h1 (DimStack.with_frames s
                 (DimStack.frames s ++ fs
                    ++ repeat (StackFrame.mk [] [] (LocalNamedMessenger.history h) true)
                              m))
      /\ LocalNamedMessenger._saved_frames h1 = []
      /\ DimStackCleanupMessenger._ref_count (LocalNamedMessenger.base h1)
         = DimStackCleanupMessenger._ref_count (LocalNamedMessenger.base h)
           + len fs + Z.of_nat m.
Proof.
  intros fs m h s o Hk Hsaved Ho.
  rewrite enter_times_add. unfold bind.
  rewrite (enter_times_replays o fs h s [] Ho Hk Hsaved).
  match goal with
  | |- context [enter_times m ?h1 ?s1] =>
      rewrite (enter_times_fresh o m h1 s1 Ho (or_intror eq_refl))
  end.
  cbn [LocalNamedMessenger.base LocalNamedMessenger.history
       LocalNamedMessenger.keep LocalNamedMessenger._saved_frames
       DimStackCleanupMessenger.self DimStackCleanupMessenger._ref_count
       DimStackCleanupMessenger._saved_dims].
  eexists. split.
  { unfold DimStack.with_frames. cbn [DimStack.frames DimStack.global_frame
      DimStack.outermost DimStack.iter_frame DimStack.first_available_dim].
    rewrite <- app_assoc. reflexivity. }
  split; reflexivity.
Qed.

Lemma kept_archive_runs_out_witness :
  let f1 := StackFrame.mk [("i"%string, -1)] [(-1, "i"%string)] 1 true in
  let h := LocalNamedMessenger.mk (DimStackCleanupMessenger.mk 2 0 []) 1 true [f1] in
  let s := DimStack.mk [] (StackFrame.mk [] [] 0 false) (Some 1%nat) None (-1) in
  exists h1,
    enter_times 3 h s
    = Ok h1 (DimStack.with_frames s
               [f1; StackFrame.mk [] [] 1 true; StackFrame.mk [] [] 1 true])
    /\ LocalNamedMessenger._saved_frames h1 = []
    /\ DimStackCleanupMessenger._ref_count (LocalNamedMessenger.base h1) = 3.
Proof.
  intros f1 h s.
  exact (kept_archive_runs_out [f1] 2 h s 1%nat eq_refl eq_refl eq_refl).
Defined.

(** X19: a loop that owns the dimension stack cleans up at its last exit and
    not before.  When the handler of the loop is the owner and has been
    entered once for every frame of the loop, the exits before the last one
    only take frames off the stack: ownership, cursor and global frame stay.
    The last exit takes the first frame of the loop off, gives up ownership,
    puts the cursor back to -1 and moves every binding of the global frame
    into [_saved_dims], last binding first; the frames beneath the loop
    stay. *)
Theorem owning_loop_cleans_up_at_last_exit :
  forall h s below f0 rest,
    DimStackCleanupMessenger._ref_count (LocalNamedMessenger.base h)
    = len (f0 :: rest) ->
    DimStack.outermost s
    = Some (DimStackCleanupMessenger.self (LocalNamedMessenger.base h)) ->
    DimStack.frames s = below ++ f0 :: rest ->
    (exists h1,
        exit_times (List.length rest) h s
        = Ok h1 (DimStack.with_frames s (below ++ [f0]))
        /\ DimStackCleanupMessenger._ref_count (LocalNamedMessenger.base h1) = 1)
    /\ exists h2 s2,
        exit_times (List.length (f0 :: rest)) h s = Ok h2 s2
        /\ DimStack.frames s2 = below
        /\ DimStack.outermost s2 = None
        /\ DimStack.first_available_dim s2 = -1
        /\ (forall n, StackFrame.read_name (DimStack.global_frame s2) n = None)
        /\ DimStackCleanupMessenger._ref_count (LocalNamedMessenger.base h2) = 0
        /\ DimStackCleanupMessenger._saved_dims (LocalNamedMessenger.base h2)
           = DimStackCleanupMessenger._saved_dims (LocalNamedMessenger.base h)
               ++ rev (StackFrame.name_to_dim (DimStack.global_frame s))
        /\ LocalNamedMessenger._saved_frames h2
           = (if LocalNamedMessenger.keep h
              then LocalNamedMessenger._saved_frames h ++ rev (f0 :: rest)
              else LocalNamedMessenger._saved_frames h).
Proof.
  intros h s below f0 rest Href Ho Hfr.
  assert (Hlen : len (f0 :: rest) = len rest + 1)
    by (unfold len; simpl List.length; lia).
  rewrite Hlen in Href.
  assert (Hbefore : len rest
                    < DimStackCleanupMessenger._ref_count (LocalNamedMessenger.base h))
    by lia.
  assert (Hstack : DimStack.frames s = (below ++ [f0]) ++ rest)
    by (rewrite Hfr, <- app_assoc; reflexivity).
  pose proof (exit_times_passive rest h s (below ++ [f0]) (or_introl Hbefore) Hstack)
    as Hfirst.
  split.
  - rewrite Hfirst. eexists. split; [reflexivity|]. simpl. lia.
  - change (List.length (f0 :: rest)) with (S (List.length rest)).
    rewrite <- Nat.add_1_r, exit_times_add. unfold bind at 1.
    rewrite Hfirst. cbn [exit_times]. unfold bind, ret.
    unfold LocalNamedMessenger.__exit__.
    cbn [LocalNamedMessenger.base LocalNamedMessenger.history
         LocalNamedMessenger.keep LocalNamedMessenger._saved_frames].
    set (b := DimStackCleanupMessenger.mk _ _ _).
    destruct (cleanup_exit_releases b
                (DimStack.with_frames (DimStack.with_frames s (below ++ [f0])) below))
      as (g' & Hrun & Hnone & _);
      [unfold b; simpl; lia|exact Ho|].
    destruct (LocalNamedMessenger.keep h); unfold bind, ret;
      rewrite (pop_last below f0 (DimStack.with_frames s (below ++ [f0])) eq_refl);
      rewrite Hrun; eexists _, _; (split; [reflexivity|]);
      repeat (split; [reflexivity|]);
      (split; [exact Hnone|]); repeat (split; [reflexivity|]).
    + cbn [LocalNamedMessenger._saved_frames]. simpl rev. now rewrite <- app_assoc.
    + reflexivity.
Qed.

Lemma owning_loop_cleans_up_at_last_exit_witness :
  let f1 := StackFrame.mk [("i"%string, -2)] [(-2, "i"%string)] 1 false in
  let f2 := StackFrame.mk [] [] 1 false in
  let h := LocalNamedMessenger.mk (DimStackCleanupMessenger.mk 1 2 []) 1 false [] in
  let s := DimStack.mk [f1; f2]
             (StackFrame.mk [("a"%string, -1)] [(-1, "a"%string)] 0 false)
             (Some 1%nat) None (-4) in
  exists h2 s2,
    exit_times 2 h s = Ok h2 s2
    /\ DimStack.frames s2 = []
    /\ DimStack.outermost s2 = None
    /\ DimStack.first_available_dim s2 = -1
    /\ (forall n, StackFrame.read_name (DimStack.global_frame s2) n = None)
    /\ DimStackCleanupMessenger._ref_count (LocalNamedMessenger.base h2) = 0
    /\ DimStackCleanupMessenger._saved_dims (LocalNamedMessenger.base h2)
       = [("a"%string, -1)]
    /\ LocalNamedMessenger._saved_frames h2 = [].
Proof.
  intros f1 f2 h s.
  exact (proj2 (owning_loop_cleans_up_at_last_exit h s [] f1 [f2]
                  eq_refl eq_refl eq_refl)).
Defined.

(* ================================================================== *)
(** * Dim windows *)
(* ================================================================== *)

Lemma with_first_available_dim_back s d :
  DimStack.with_first_available_dim (DimStack.with_first_available_dim s d)
                                    (DimStack.first_available_dim s)
  = s.
Proof. now destruct s. Qed.



(** X14: dim windows nest.  Inside the scope of another owner, windows that
    are entered one inside the other and left in the reverse order give the
    body the override of the innermost window that has one (the cursor from
    outside if none has), and after the last exit the dimension stack is
    exactly what it was before the first entry. *)
Theorem nested_windows_restore_cursor :
  forall hs s o,
    DimStack.outermost s = Some o ->
    Forall (fun h =>
              DimStackCleanupMessenger._ref_count (BaseEnumMessenger.base h) = 0
              /\ DimStackCleanupMessenger.self (BaseEnumMessenger.base h) <> o) hs ->
    nested_windows hs s
    = Ok (innermost_cursor (DimStack.first_available_dim s) hs) s.
Proof.
  induction hs as [|h rest IH]; intros s o Ho Hall; [reflexivity|].
  inversion Hall as [|? ? [Href Hself] Hrest]; subst.
  cbn [nested_windows innermost_cursor fold_left]. unfold bind.
  destruct (BaseEnumMessenger.first_available_dim h) as [d|] eqn:Hov.
  - rewrite (enum_enter_with_override h s d Hov Href).
    rewrite (cleanup_enter_inside _ _ o) by exact Ho.
    rewrite (IH (DimStack.with_first_available_dim s d) o Ho Hrest).
    unfold BaseEnumMessenger.__exit__, bind, ret.
    cbn [BaseEnumMessenger.base BaseEnumMessenger.first_available_dim
         BaseEnumMessenger._prev_first_dim DimStackCleanupMessenger._ref_count
         DimStackCleanupMessenger.self DimStackCleanupMessenger._saved_dims].
    rewrite Href. cbn [Z.add Z.eqb Pos.eqb].
    unfold DimStack.set_first_available_dim.
    rewrite with_first_available_dim_back.
    rewrite (cleanup_exit_inside _ _ o Ho) by (cbn; congruence).
    reflexivity.
  - unfold BaseEnumMessenger.__enter__, bind, ret. rewrite Hov.
    rewrite (cleanup_enter_inside _ _ o Ho).
    rewrite (IH s o Ho Hrest).
    unfold BaseEnumMessenger.__exit__, bind, ret.
    cbn [BaseEnumMessenger.base BaseEnumMessenger.first_available_dim
         BaseEnumMessenger._prev_first_dim].
    rewrite (cleanup_exit_inside _ _ o Ho) by (cbn; congruence).
    reflexivity.
Qed.

Lemma nested_windows_restore_cursor_witness :
  let s := DimStack.mk [] (StackFrame.mk [] [] 0 false) (Some 1%nat) None (-1) in
  nested_windows
    [BaseEnumMessenger.mk (DimStackCleanupMessenger.__init__ 2) (Some (-3)) None;
     BaseEnumMessenger.mk (DimStackCleanupMessenger.__init__ 3) None None;
     BaseEnumMessenger.mk (DimStackCleanupMessenger.__init__ 4) (Some (-5)) None;
     BaseEnumMessenger.mk (DimStackCleanupMessenger.__init__ 5) None None] s
  = Ok (-5) s.
Proof.
  intros s.
  refine (nested_windows_restore_cursor _ s 1%nat eq_refl _).
  repeat constructor; discriminate.
Defined.

(* ================================================================== *)
(** * The global handler: recording and re-entry *)
(* ================================================================== *)

Lemma record_globals_bound names :
  forall saved s,
    (forall n, In n names ->
               StackFrame.read_name (DimStack.global_frame s) n <> None) ->
    exists added,
      GlobalNamedMessenger.record_globals names saved s = Ok (saved ++ added) s
      /\ map fst added = names
      /\ forall n d, In (n, d) added ->
                     StackFrame.read_name (DimStack.global_frame s) n = Some d.
Proof.
  induction names as [|n0 rest IH]; intros saved s Hb;
    cbn [GlobalNamedMessenger.record_globals].
  - exists []. unfold ret. rewrite app_nil_r. split; [reflexivity|].
    split; [reflexivity|intros n d []].
  - destruct (StackFrame.read_name (DimStack.global_frame s) n0) as [d0|] eqn:E;
      [|now elim (Hb n0 (or_introl eq_refl))].
    destruct (IH (saved ++ [(n0, d0)]) s) as (added & Hrun & Hfst & Hin).
    { intros n Hn. apply Hb. now right. }
    exists ((n0, d0) :: added). rewrite Hrun, <- app_assoc.
    split; [reflexivity|]. split; [simpl; now rewrite Hfst|].
    intros n d [[= <- <-]|H]; [exact E|now apply Hin].
Qed.

Lemma record_globals_unbound names :
  forall saved s n,
    In n names ->
    StackFrame.read_name (DimStack.global_frame s) n = None ->
    GlobalNamedMessenger.record_globals names saved s = Raise KeyError s.
Proof.
  induction names as [|n0 rest IH]; intros saved s n Hin Hnone; [destruct Hin|].
  cbn [GlobalNamedMessenger.record_globals].
  destruct (StackFrame.read_name (DimStack.global_frame s) n0) as [d0|] eqn:E;
    [|reflexivity].
  destruct Hin as [->|Hin]; [congruence|].
  now apply (IH _ _ n).
Qed.

(** X15: the post hooks of the global handler only take notes.  After a
    LOCAL conversion they do nothing, and [_pyro_post_to_funsor] does not
    even look at the value.  After a GLOBAL or VISIBLE conversion they
    append to [_saved_globals] one pair for each input of the funsor, in
    order, the name with the dim it has in the global frame, and leave the
    dimension stack as it is.  An input without a dim in the global frame
    makes them raise [KeyError], again with the dimension stack as it is. *)
Theorem post_hooks_record_global_dims :
  (forall h msg s,
      ToDataMsg.dim_type msg = Some LOCAL ->
      GlobalNamedMessenger._pyro_post_to_data h msg s = Ok h s)
  /\ (forall h msg s,
         ToFunsorMsg.dim_type msg = Some LOCAL ->
         GlobalNamedMessenger._pyro_post_to_funsor h msg s = Ok h s)
  /\ (forall h msg ty s,
         ToDataMsg.dim_type msg = Some ty -> ty <> LOCAL ->
         let names := OrderedDict.keys (Funsor.inputs (ToDataMsg.args msg)) in
         ((forall n, In n names ->
                     StackFrame.read_name (DimStack.global_frame s) n <> None) ->
          exists h', GlobalNamedMessenger._pyro_post_to_data h msg s = Ok h' s
                     /\ records h h' (DimStack.global_frame s) names)
         /\ (forall n, In n names ->
                       StackFrame.read_name (DimStack.global_frame s) n = None ->
                       GlobalNamedMessenger._pyro_post_to_data h msg s
                       = Raise KeyError s))
  /\ (forall h msg ty v s,
         ToFunsorMsg.dim_type msg = Some ty -> ty <> LOCAL ->
         ToFunsorMsg.value msg = Some v ->
         let names := OrderedDict.keys (Funsor.inputs v) in
         ((forall n, In n names ->
                     StackFrame.read_name (DimStack.global_frame s) n <> None) ->
          exists h', GlobalNamedMessenger._pyro_post_to_funsor h msg s = Ok h' s
                     /\ records h h' (DimStack.global_frame s) names)
         /\ (forall n, In n names ->
                       StackFrame.read_name (DimStack.global_frame s) n = None ->
                       GlobalNamedMessenger._pyro_post_to_funsor h msg s
                       = Raise KeyError s)).
Proof.
  assert (Hpost : forall h ty names s,
             ty <> LOCAL ->
             ((forall n, In n names ->
                         StackFrame.read_name (DimStack.global_frame s) n <> None) ->
              exists h', GlobalNamedMessenger.post h (Some ty) names s = Ok h' s
                         /\ records h h' (DimStack.global_frame s) names)
             /\ (forall n, In n names ->
                           StackFrame.read_name (DimStack.global_frame s) n = None ->
                           GlobalNamedMessenger.post h (Some ty) names s
                           = Raise KeyError s)).
  { intros h ty names s Hty.
    assert (Hg : GlobalNamedMessenger.is_global_or_visible ty = true)
      by (destruct ty; [congruence|reflexivity|reflexivity]).
    unfold GlobalNamedMessenger.post. rewrite Hg. unfold bind, ret. split.
    - intros Hb.
      destruct (record_globals_bound names (GlobalNamedMessenger._saved_globals h) s Hb)
        as (added & -> & Hfst & Hin).
      eexists. split; [reflexivity|]. split; [reflexivity|].
      exists added. simpl. now repeat split.
    - intros n Hn Hnone.
      now rewrite (record_globals_unbound names _ s n Hn Hnone). }
  split; [|split; [|split]].
  - intros h msg s Hty. unfold GlobalNamedMessenger._pyro_post_to_data.
    now rewrite Hty.
  - intros h msg s Hty. unfold GlobalNamedMessenger._pyro_post_to_funsor.
    now rewrite Hty.
  - intros h msg ty s Hty Hne names.
    unfold GlobalNamedMessenger._pyro_post_to_data. rewrite Hty.
    now apply Hpost.
  - intros h msg ty v s Hty Hne Hv names.
    unfold GlobalNamedMessenger._pyro_post_to_funsor. rewrite Hty, Hv.
    replace (GlobalNamedMessenger.is_global_or_visible ty) with true
      by (destruct ty; [congruence|reflexivity|reflexivity]).
    now apply Hpost.
Qed.

Lemma post_hooks_record_global_dims_witness :
  let h := GlobalNamedMessenger.mk (DimStackCleanupMessenger.mk 2 1 [])
                                   [("a"%string, -1)] in
  let s := DimStack.mk []
             (StackFrame.mk [("a"%string, -1); ("b"%string, -2)]
                            [(-1, "a"%string); (-2, "b"%string)] 0 false)
             (Some 1%nat) None (-1) in
  let msg := ToDataMsg.mk (Funsor.mk [("b"%string, 3); ("a"%string, 2)])
                          (Some []) (Some GLOBAL) true in
  exists h', GlobalNamedMessenger._pyro_post_to_data h msg s = Ok h' s
             /\ records h h' (DimStack.global_frame s) ["b"%string; "a"%string].
Proof.
  intros h s msg.
  refine (proj1 (proj1 (proj2 (proj2 post_hooks_record_global_dims))
                   h msg GLOBAL s eq_refl _) _).
  - discriminate.
  - intros n [<-|[<-|[]]]; discriminate.
Defined.

(** X16: the names that the global handler restores on re-entry are no
    longer its own.  Inside the scope of another owner, a first entry writes
    the pairs in [_saved_globals] back into the global frame and empties
    [_saved_globals]; so the final exit of that scope, unless a post hook
    has recorded something in between, releases nothing: it returns with the
    dimension stack as it finds it, and the handler is as before the entry
    but for the forgotten pairs. *)
Theorem reentered_scope_releases_nothing :
  forall g s o g1 s1,
    DimStackCleanupMessenger._ref_count (GlobalNamedMessenger.base g) = 0 ->
    DimStack.outermost s = Some o ->
    o <> DimStackCleanupMessenger.self (GlobalNamedMessenger.base g) ->
    GlobalNamedMessenger.__enter__ g s = Ok g1 s1 ->
    GlobalNamedMessenger._saved_globals g1 = []
    /\ DimStack.outermost s1 = Some o
    /\ (forall n d, In (n, d) (GlobalNamedMessenger._saved_globals g) ->
                    bound (DimStack.global_frame s1) n d)
    /\ (forall s2,
           DimStack.outermost s2 = Some o ->
           GlobalNamedMessenger.__exit__ g1 s2
           = Ok (GlobalNamedMessenger.mk (GlobalNamedMessenger.base g) []) s2).
Proof.
  intros g s o g1 s1 Href Ho Hneq Hrun.
  unfold GlobalNamedMessenger.__enter__, bind, ret in Hrun.
  rewrite Href in Hrun. cbn [Z.eqb] in Hrun.
  destruct (DimStackCleanupMessenger.write_all
              (GlobalNamedMessenger._saved_globals g) s) as [[] sw|] eqn:Hw;
    [|discriminate].
  pose proof (write_all_outermost (GlobalNamedMessenger._saved_globals g) s) as Hom.
  rewrite Hw in Hom. simpl in Hom. rewrite Ho in Hom.
  rewrite (cleanup_enter_inside _ _ o Hom) in Hrun.
  injection Hrun as <- <-.
  destruct (write_all_spec _ _ _ Hw) as (g' & -> & Hbound & _).
  split; [reflexivity|]. split; [exact Hom|]. split.
  - intros n d Hin. now apply Hbound.
  - intros s2 Ho2.
    unfold GlobalNamedMessenger.__exit__, bind, ret.
    cbn [GlobalNamedMessenger.base GlobalNamedMessenger._saved_globals
         DimStackCleanupMessenger._ref_count].
    rewrite Href. cbn [Z.add Z.eqb Pos.eqb GlobalNamedMessenger.free_each].
    unfold ret.
    rewrite (cleanup_exit_inside _ _ o Ho2) by (cbn; congruence).
    cbn [DimStackCleanupMessenger.self DimStackCleanupMessenger._ref_count
         DimStackCleanupMessenger._saved_dims].
    destruct g as [[i r sd] sg]. simpl in *. subst r. reflexivity.
Qed.

Lemma reentered_scope_releases_nothing_witness :
  let g := GlobalNamedMessenger.mk (DimStackCleanupMessenger.mk 2 0 [])
                                   [("a"%string, -1)] in
  let s := DimStack.mk [] (StackFrame.mk [] [] 0 false) (Some 1%nat) None (-1) in
  let g1 := GlobalNamedMessenger.mk (DimStackCleanupMessenger.mk 2 1 []) [] in
  let s1 := DimStack.mk []
              (StackFrame.mk [("a"%string, -1)] [(-1, "a"%string)] 0 false)
              (Some 1%nat) None (-1) in
  bound (DimStack.global_frame s1) "a"%string (-1)
  /\ GlobalNamedMessenger.__exit__ g1 s1
     = Ok (GlobalNamedMessenger.mk (DimStackCleanupMessenger.mk 2 0 []) []) s1.
Proof.
  intros g s g1 s1.
  assert (Hneq : 1%nat <> DimStackCleanupMessenger.self (GlobalNamedMessenger.base g))
    by discriminate.
  assert (Hrun : GlobalNamedMessenger.__enter__ g s = Ok g1 s1) by reflexivity.
  destruct (reentered_scope_releases_nothing g s 1%nat g1 s1 eq_refl eq_refl Hneq Hrun)
    as (_ & _ & Hbound & Hexit).
  split; [apply Hbound; now left|exact (Hexit s1 eq_refl)].
Defined.

(** X17: re-entry is transparent.  A cleanup, global or dim-window handler
    that is already entered can be entered and left again, and the pair of
    calls changes nothing: the dimension stack, the ownership, the cursor
    and every field of the handler, the reference count included, are as
    before.  Only the outermost entry and the final exit of a handler do any
    work. *)
Theorem reentry_is_transparent :
  (forall h s,
      DimStackCleanupMessenger._ref_count h <> 0 ->
      (h1 <- DimStackCleanupMessenger.__enter__ h ;;
       DimStackCleanupMessenger.__exit__ h1) s = Ok h s)
  /\ (forall g s,
         DimStackCleanupMessenger._ref_count (GlobalNamedMessenger.base g) <> 0 ->
         (g1 <- GlobalNamedMessenger.__enter__ g ;;
          GlobalNamedMessenger.__exit__ g1) s = Ok g s)
  /\ (forall w s,
         DimStackCleanupMessenger._ref_count (BaseEnumMessenger.base w) <> 0 ->
         (w1 <- BaseEnumMessenger.__enter__ w ;;
          BaseEnumMessenger.__exit__ w1) s = Ok w s).
Proof.
  assert (Hbase : forall h s,
             DimStackCleanupMessenger._ref_count h <> 0 ->
             DimStackCleanupMessenger.__enter__ h s
             = Ok (DimStackCleanupMessenger.mk (DimStackCleanupMessenger.self h)
                     (DimStackCleanupMessenger._ref_count h + 1)
                     (DimStackCleanupMessenger._saved_dims h)) s
             /\ DimStackCleanupMessenger.__exit__
                  (DimStackCleanupMessenger.mk (DimStackCleanupMessenger.self h)
                     (DimStackCleanupMessenger._ref_count h + 1)
                     (DimStackCleanupMessenger._saved_dims h)) s
                = Ok h s).
  { intros h s Hr. split.
    - apply cleanup_enter_passive. apply Z.eqb_neq in Hr. now rewrite Hr.
    - rewrite cleanup_exit_passive.
      + destruct h as [i r sd]. simpl. f_equal. f_equal. lia.
      + simpl. replace (DimStackCleanupMessenger._ref_count h + 1 =? 1) with false;
          [reflexivity|]. symmetry. apply Z.eqb_neq. lia. }
  split; [|split].
  - intros h s Hr. unfold bind. destruct (Hbase h s Hr) as [-> ->]. reflexivity.
  - intros g s Hr. destruct (Hbase (GlobalNamedMessenger.base g) s Hr) as [He Hx].
    unfold GlobalNamedMessenger.__enter__, GlobalNamedMessenger.__exit__, bind, ret.
    apply Z.eqb_neq in Hr. rewrite Hr, He.
    cbn [GlobalNamedMessenger.base GlobalNamedMessenger._saved_globals
         DimStackCleanupMessenger._ref_count].
    replace (DimStackCleanupMessenger._ref_count (GlobalNamedMessenger.base g) + 1 =? 1)
      with false by (symmetry; apply Z.eqb_neq; apply Z.eqb_neq in Hr; lia).
    rewrite Hx. now destruct g.
  - intros w s Hr. destruct (Hbase (BaseEnumMessenger.base w) s Hr) as [He Hx].
    unfold BaseEnumMessenger.__enter__, BaseEnumMessenger.__exit__, bind, ret.
    apply Z.eqb_neq in Hr.
    destruct (BaseEnumMessenger.first_available_dim w) as [d|] eqn:Hov.
    + rewrite Hr, He.
      cbn [BaseEnumMessenger.base BaseEnumMessenger.first_available_dim
           BaseEnumMessenger._prev_first_dim DimStackCleanupMessenger._ref_count].
      replace (DimStackCleanupMessenger._ref_count (BaseEnumMessenger.base w) + 1 =? 1)
        with false by (symmetry; apply Z.eqb_neq; apply Z.eqb_neq in Hr; lia).
      rewrite Hx. destruct w. simpl in *. now subst.
    + rewrite He.
      cbn [BaseEnumMessenger.base BaseEnumMessenger.first_available_dim
           BaseEnumMessenger._prev_first_dim].
      rewrite Hx. destruct w. simpl in *. now subst.
Qed.

Lemma reentry_is_transparent_witness :
  let w := BaseEnumMessenger.mk (DimStackCleanupMessenger.mk 1 1 []) (Some (-3))
                                (Some (-1)) in
  let s := DimStack.mk [] (StackFrame.mk [] [] 0 false) (Some 1%nat) None (-3) in
  (w1 <- BaseEnumMessenger.__enter__ w ;; BaseEnumMessenger.__exit__ w1) s = Ok w s.
Proof.
  intros w s.
  refine (proj2 (proj2 reentry_is_transparent) w s _).
  discriminate.
Defined.
